(** * vtypes: text-to-value hydration through pointer chains

    A shallow embedding of the Go package [github.com/daved/vtypes]
    ([vtypes.go], [slice.go], [onsetboolfunc.go], the error and interface
    declarations) together with the properties of its dispatch and
    resolution engine.

    Go values live in a store of typed cells; [reflect.Value] is modelled by
    [rvalue], which is either a value held directly (not addressable) or a
    reference to a cell (addressable).  Code that can panic runs in the
    monad [M], whose outcomes are [Done] or [Panic]. *)

From Stdlib Require Import ZArith Lia Ascii String.
From stdpp Require Import base list strings.

Local Open Scope string_scope.
Local Open Scope list_scope.
Set Warnings "-register-all".

(** ** Types and values *)

(** The built-in kinds that [hydrateValue] matches by exact type identity. *)
Inductive basic :=
| BString | BBool
| BInt | BInt8 | BInt16 | BInt32 | BInt64
| BUint | BUint8 | BUint16 | BUint32 | BUint64
| BFloat32 | BFloat64
| BDuration.

(** Static Go types of destinations.  [TNamed n] is a defined struct type;
    the methods it declares on [*T] are looked up by name in the environment.
    [TOnSetFunc] and [TOnSetBoolFunc] are the two callback types of the
    package; [TFunc] stands for every other function type. *)
Inductive type :=
| TBasic (b : basic)
| TPtr (t : type)
| TSlice (t : type)
| TNamed (n : string)
| TOnSetFunc
| TOnSetBoolFunc
| TFunc.

Global Instance basic_eq_dec : EqDecision basic.
Proof. solve_decision. Defined.
Global Instance type_eq_dec : EqDecision type.
Proof. solve_decision. Defined.

(** [reflect.Kind], as far as the package inspects it. *)
Inductive Kind :=
| Invalid | Bool | Int | Int8 | Int16 | Int32 | Int64
| Uint | Uint8 | Uint16 | Uint32 | Uint64
| Float32 | Float64 | String_ | Pointer | SliceKind | Func | Struct.

Global Instance Kind_eq_dec : EqDecision Kind.
Proof. solve_decision. Defined.

Definition basic_kind (b : basic) : Kind :=
  match b with
  | BString => String_ | BBool => Bool
  | BInt => Int | BInt8 => Int8 | BInt16 => Int16 | BInt32 => Int32
  | BInt64 => Int64
  | BUint => Uint | BUint8 => Uint8 | BUint16 => Uint16 | BUint32 => Uint32
  | BUint64 => Uint64
  | BFloat32 => Float32 | BFloat64 => Float64
  | BDuration => Int64
  end.

Definition type_kind (t : type) : Kind :=
  match t with
  | TBasic b => basic_kind b
  | TPtr _ => Pointer
  | TSlice _ => SliceKind
  | TNamed _ => Struct
  | TOnSetFunc | TOnSetBoolFunc | TFunc => Func
  end.

(** Addresses of cells. *)
Abbreviation loc := nat (only parsing).

(** Run-time values.  Integers of every width and durations are [VInt];
    floating-point numbers are kept as their IEEE bit pattern; a pointer is
    nil or an address; a slice is nil or its elements; a function value is
    nil or the identifier of a callback of the environment. *)
Inductive value :=
| VString (s : string)
| VBool (b : bool)
| VInt (z : Z)
| VFloat (bits : Z)
| VPtr (p : option loc)
| VSlice (elems : option (list value))
| VStruct (payload : Z)
| VFunc (f : option nat).

Definition zero_basic (b : basic) : value :=
  match b with
  | BString => VString ""
  | BBool => VBool false
  | BFloat32 | BFloat64 => VFloat 0
  | _ => VInt 0
  end.

(** The zero value of a type, as [reflect.New] allocates it. *)
Definition zero (t : type) : value :=
  match t with
  | TBasic b => zero_basic b
  | TPtr _ => VPtr None
  | TSlice _ => VSlice None
  | TNamed _ => VStruct 0
  | TOnSetFunc | TOnSetBoolFunc | TFunc => VFunc None
  end.

(** A Go interface value ([any]): nil, a dynamic type with its value, or a
    [*Slice] (the address of a wrapper). *)
Inductive any :=
| ANil
| AVal (t : type) (v : value)
| ASlice (r : nat).

(** [type Slice struct] of [slice.go]. *)
Record Slice := mkSlice {
  ptrValue : any;
  started : bool;
  TypeName : string;
  SplitEach : bool;
  Separator : string;
  NonAccum : bool
}.

(** [MakeSlice] *)
Definition MakeSlice (ptrValue : any) : Slice :=
  {| ptrValue := ptrValue; started := false; TypeName := "";
     SplitEach := false; Separator := ","; NonAccum := false |}.

(** ** Errors *)

(** The error values that the package creates, wraps or passes on. *)
Inductive error :=
| ErrTypeUnsupported
| ErrSyntax (fn num : string)
| ErrRange (fn num : string)
| ErrOther (msg : string)
| ErrValue (val : any)
| ErrWrap (prefix : string) (child : error)
| Error_ (child : error)
| HydrateError_ (child : error) (Val : any).

(** [NewError], [NewHydrateError] and their [Unwrap] methods. *)
Definition NewError (child : error) : error := Error_ child.
Definition NewHydrateError (child : error) (val : any) : error :=
  HydrateError_ child val.

Definition Unwrap (e : error) : option error :=
  match e with
  | Error_ c | HydrateError_ c _ | ErrWrap _ c => Some c
  | _ => None
  end.

(** ** Store and the panic monad *)

Record store := mkStore {
  cells : list (type * value);
  wrappers : list Slice
}.

Inductive outcome (A : Type) :=
| Done (a : A) (σ : store)
| Panic (msg : string).
Arguments Done {A} a σ.
Arguments Panic {A} msg.

Definition M (A : Type) : Type := store → outcome A.

Global Instance M_ret : MRet M := λ A a σ, Done a σ.
Global Instance M_bind : MBind M := λ A B f m σ,
  match m σ with
  | Done a σ' => f a σ'
  | Panic msg => Panic msg
  end.

Definition panic {A} (msg : string) : M A := λ _, Panic msg.
Definition get_store : M store := λ σ, Done σ σ.
Definition put_store (σ : store) : M unit := λ _, Done tt σ.

Definition set_cell (l : loc) (c : type * value) : M unit :=
  σ ← get_store;
  put_store {| cells := <[l := c]> (cells σ); wrappers := wrappers σ |}.

Definition alloc_cell (c : type * value) : M loc :=
  σ ← get_store;
  put_store {| cells := cells σ ++ [c]; wrappers := wrappers σ |};;
  mret (length (cells σ)).

Definition get_wrapper (r : nat) : M Slice :=
  σ ← get_store;
  match wrappers σ !! r with
  | Some s => mret s
  | None => panic "invalid memory address or nil pointer dereference"
  end.

Definition set_wrapper (r : nat) (s : Slice) : M unit :=
  σ ← get_store;
  put_store {| cells := cells σ; wrappers := <[r := s]> (wrappers σ) |}.

(** ** The fragment of [reflect] that the package uses *)

Inductive place :=
| Direct (v : value)
| At (l : loc).

Inductive rvalue :=
| RInvalid
| RV (t : type) (p : place)
| RSlicePtr (r : nat)
| RSliceStruct (r : nat).

Definition load (p : place) : M value :=
  match p with
  | Direct v => mret v
  | At l =>
      σ ← get_store;
      match cells σ !! l with
      | Some (_, v) => mret v
      | None => panic "invalid memory address or nil pointer dereference"
      end
  end.

Definition ValueOf (val : any) : rvalue :=
  match val with
  | ANil => RInvalid
  | AVal t v => RV t (Direct v)
  | ASlice r => RSlicePtr r
  end.

Definition KindOf (v : rvalue) : Kind :=
  match v with
  | RInvalid => Invalid
  | RV t _ => type_kind t
  | RSlicePtr _ => Pointer
  | RSliceStruct _ => Struct
  end.

Definition IsNil (v : rvalue) : M bool :=
  match v with
  | RV (TPtr _) p =>
      x ← load p;
      match x with
      | VPtr None => mret true
      | _ => mret false
      end
  | RV (TSlice _) p =>
      x ← load p;
      match x with
      | VSlice None => mret true
      | _ => mret false
      end
  | RSlicePtr _ => mret false
  | _ => panic "reflect: call of reflect.Value.IsNil on a value that cannot be nil"
  end.

Definition Elem (v : rvalue) : M rvalue :=
  match v with
  | RV (TPtr t) p =>
      x ← load p;
      match x with
      | VPtr (Some l) => mret (RV t (At l))
      | _ => mret RInvalid
      end
  | RSlicePtr r => mret (RSliceStruct r)
  | _ => panic "reflect: call of reflect.Value.Elem on a value that is no pointer"
  end.

(** [v.Type().Elem()] *)
Definition TypeElem (v : rvalue) : M type :=
  match v with
  | RV (TPtr t) _ | RV (TSlice t) _ => mret t
  | _ => panic "reflect: Elem of invalid type"
  end.

(** [v.Type()] *)
Definition TypeOf (v : rvalue) : M type :=
  match v with
  | RV t _ => mret t
  | _ => panic "reflect: call of reflect.Value.Type on zero Value"
  end.

Definition New (t : type) : M rvalue :=
  l ← alloc_cell (t, zero t);
  mret (RV (TPtr t) (Direct (VPtr (Some l)))).

Definition SetValue (dst src : rvalue) : M unit :=
  match dst, src with
  | RV t (At l), RV t' p =>
      if decide (t' = t)
      then x ← load p; set_cell l (t, x)
      else panic "reflect.Set: value is not assignable to type"
  | RSliceStruct r, RSliceStruct r' =>
      s ← get_wrapper r'; set_wrapper r s
  | RV _ (At _), _ | RSliceStruct _, _ =>
      panic "reflect.Set: value is not assignable to type"
  | _, _ => panic "reflect: reflect.Value.Set using unaddressable value"
  end.

Definition Interface (v : rvalue) : M any :=
  match v with
  | RV t p => x ← load p; mret (AVal t x)
  | RSlicePtr r => mret (ASlice r)
  | _ => panic "reflect: call of reflect.Value.Interface on zero Value"
  end.

(** [reflect.MakeSlice(t, 0, 0)]: an empty slice that is not nil. *)
Definition MakeSlice00 (t : type) : rvalue :=
  RV t (Direct (VSlice (Some []))).

Definition slice_elems (o : option (list value)) : list value :=
  default [] o.

Definition Append (s x : rvalue) : M rvalue :=
  match s, x with
  | RV (TSlice te) p, RV tx px =>
      if decide (tx = te)
      then
        sv ← load p;
        xv ← load px;
        match sv with
        | VSlice o => mret (RV (TSlice te) (Direct (VSlice (Some (slice_elems o ++ [xv])))))
        | _ => panic "reflect: call of reflect.Append on a value that is no slice"
        end
      else panic "reflect.Set: value is not assignable to type"
  | _, _ => panic "reflect: call of reflect.Append on a value that is no slice"
  end.

(** ** The Go standard library functions that the package calls *)

(** The platform's word size decides [strconv.IntSize]. *)
Inductive arch := Arch32 | Arch64.

Definition IntSize (a : arch) : Z :=
  match a with Arch32 => 32 | Arch64 => 64 end.

Definition byte (c : ascii) : Z := Z.of_nat (nat_of_ascii c).

Definition digit_char (d : Z) : ascii := ascii_of_nat (Z.to_nat (48 + d)).

(** [strconv.ParseBool] *)
Definition ParseBool (s : string) : bool + error :=
  if decide (s ∈ ["1"; "t"; "T"; "TRUE"; "true"; "True"]) then inl true
  else if decide (s ∈ ["0"; "f"; "F"; "FALSE"; "false"; "False"]) then inl false
  else inr (ErrSyntax "ParseBool" s).

Definition maxUint64 : Z := 2 ^ 64 - 1.

Inductive numres :=
| NumOk (n : Z)
| NumSyntax
| NumRange (clamped : Z).

(** The digit loop of [strconv.ParseUint] for base 10: [n] is the value
    read so far, in 64-bit unsigned arithmetic. *)
Fixpoint parseUintLoop (maxVal n : Z) (s : string) : numres :=
  match s with
  | "" => NumOk n
  | String c s' =>
      let b := byte c in
      if (48 <=? b)%Z && (b <=? 57)%Z then
        let d := (b - 48)%Z in
        if (maxUint64 / 10 + 1 <=? n)%Z then NumRange maxVal
        else
          let n10 := (n * 10)%Z in
          let n1 := ((n10 + d) mod 2 ^ 64)%Z in
          if (n1 <? n10)%Z || (maxVal <? n1)%Z then NumRange maxVal
          else parseUintLoop maxVal n1 s'
      else NumSyntax
  end.

Definition bitSizeOf (a : arch) (bitSize : Z) : Z :=
  if (bitSize =? 0)%Z then IntSize a else bitSize.

Definition parseUint (a : arch) (s : string) (bitSize : Z) : numres :=
  match s with
  | "" => NumSyntax
  | _ => parseUintLoop (2 ^ bitSizeOf a bitSize - 1) 0 s
  end.

(** [strconv.ParseUint(s, 10, bitSize)] *)
Definition ParseUint (a : arch) (s : string) (bitSize : Z) : Z + error :=
  match parseUint a s bitSize with
  | NumOk n => inl n
  | NumSyntax => inr (ErrSyntax "ParseUint" s)
  | NumRange _ => inr (ErrRange "ParseUint" s)
  end.

Definition parseInt (a : arch) (s0 : string) (bitSize : Z) : numres :=
  match s0 with
  | "" => NumSyntax
  | String c rest =>
      let neg := bool_decide (c = "-"%char) in
      let s := if bool_decide (c = "+"%char) || neg then rest else s0 in
      match parseUint a s bitSize with
      | NumSyntax => NumSyntax
      | NumOk un | NumRange un =>
          let cutoff := (2 ^ (bitSizeOf a bitSize - 1))%Z in
          if negb neg && (cutoff <=? un)%Z then NumRange (cutoff - 1)
          else if neg && (cutoff <? un)%Z then NumRange (- cutoff)
          else NumOk (if neg then - un else un)%Z
      end
  end.

(** [strconv.ParseInt(s, 10, bitSize)] *)
Definition ParseInt (a : arch) (s : string) (bitSize : Z) : Z + error :=
  match parseInt a s bitSize with
  | NumOk n => inl n
  | NumSyntax => inr (ErrSyntax "ParseInt" s)
  | NumRange _ => inr (ErrRange "ParseInt" s)
  end.

(** [strconv.Atoi]: [ParseInt(s, 10, 0)] with the function name of the
    error replaced (its fast path for short inputs computes the same). *)
Definition Atoi (a : arch) (s : string) : Z + error :=
  match parseInt a s 0 with
  | NumOk n => inl n
  | NumSyntax => inr (ErrSyntax "Atoi" s)
  | NumRange _ => inr (ErrRange "Atoi" s)
  end.

(** Decimal digits of [u], most significant first, in front of [acc]
    ([strconv.formatBits] for base 10; 20 digits hold every 64-bit value). *)
Fixpoint formatBits (fuel : nat) (u : Z) (acc : string) : string :=
  match fuel with
  | O => acc
  | S fuel' =>
      if (u <? 10)%Z then String (digit_char u) acc
      else formatBits fuel' (u / 10) (String (digit_char (u mod 10)) acc)
  end.

Definition FormatUint (u : Z) : string := formatBits 20 u "".

Definition FormatInt (i : Z) : string :=
  if (i <? 0)%Z then String "-" (FormatUint (- i)) else FormatUint i.

(** [utf8.DecodeRune]: the width in bytes of the first UTF-8 sequence. *)
Definition utf8_first (b : Z) : Z :=
  if (b <? 128)%Z then 240
  else if (b <? 194)%Z then 241
  else if (b <? 224)%Z then 2
  else if (b =? 224)%Z then 19
  else if (b <? 237)%Z then 3
  else if (b =? 237)%Z then 35
  else if (b <? 240)%Z then 3
  else if (b =? 240)%Z then 52
  else if (b <? 244)%Z then 4
  else if (b =? 244)%Z then 68
  else 241.

Definition utf8_accept (i : Z) : Z * Z :=
  if (i =? 0)%Z then (128%Z, 191%Z)
  else if (i =? 1)%Z then (160%Z, 191%Z)
  else if (i =? 2)%Z then (128%Z, 159%Z)
  else if (i =? 3)%Z then (144%Z, 191%Z)
  else (128%Z, 143%Z).

Definition outside (lo hi b : Z) : bool := (b <? lo)%Z || (hi <? b)%Z.

Definition runeSize (s : string) : nat :=
  match s with
  | "" => 0
  | String c0 r0 =>
      let x := utf8_first (byte c0) in
      if (240 <=? x)%Z then 1
      else
        let sz := Z.land x 7 in
        let '(lo, hi) := utf8_accept (Z.shiftr x 4) in
        if (Z.of_nat (String.length s) <? sz)%Z then 1
        else
          match r0 with
          | String c1 (String c2 (String c3 _)) =>
              if outside lo hi (byte c1) then 1
              else if (sz <=? 2)%Z then 2
              else if outside 128 191 (byte c2) then 1
              else if (sz <=? 3)%Z then 3
              else if outside 128 191 (byte c3) then 1
              else 4
          | String c1 (String c2 "") =>
              if outside lo hi (byte c1) then 1
              else if (sz <=? 2)%Z then 2
              else if outside 128 191 (byte c2) then 1
              else 3
          | String c1 "" =>
              if outside lo hi (byte c1) then 1 else 2
          | "" => 1
          end
  end.

(** [bytes.explode(s, -1)]: [s] cut into its UTF-8 sequences.  [skip] counts
    the bytes of the current sequence still to be taken into [cur]. *)
Fixpoint explode (skip : nat) (s cur : string) : list string :=
  match s with
  | "" => []
  | String c s' =>
      match skip with
      | O =>
          match runeSize s with
          | S (S k) => explode (S k) s' (String c "")
          | _ => String c "" :: explode 0 s' ""
          end
      | S O => (cur +:+ String c "") :: explode 0 s' ""
      | S k => explode k s' (cur +:+ String c "")
      end
  end.

(** [bytes.HasPrefix] *)
Fixpoint HasPrefix (s p : string) : bool :=
  match p, s with
  | "", _ => true
  | String a p', String b s' => bool_decide (a = b) && HasPrefix s' p'
  | _, _ => false
  end.

(** The loop of [bytes.genSplit] for a separator that is not empty: the text
    is cut at each leftmost occurrence of [sep].  [cur] is the chunk read so
    far and [skip] the bytes of a matched separator still to be passed. *)
Fixpoint splitLoop (sep : string) (skip : nat) (s cur : string) : list string :=
  match s with
  | "" => [cur]
  | String c s' =>
      match skip with
      | S k => splitLoop sep k s' cur
      | O =>
          if HasPrefix s sep
          then cur :: splitLoop sep (String.length sep - 1) s' ""
          else splitLoop sep 0 s' (cur +:+ String c "")
      end
  end.

(** [bytes.Split(s, sep)] *)
Definition Split (s sep : string) : list string :=
  match sep with
  | "" => explode 0 s ""
  | _ => splitLoop sep 0 s ""
  end.

(** [strings.Join] *)
Fixpoint Join (elems : list string) (sep : string) : string :=
  match elems with
  | [] => ""
  | [x] => x
  | x :: rest => x +:+ sep +:+ Join rest sep
  end.

(** Conversions between integer types: [intN(n)] and [uintN(n)]. *)
Definition to_uint (w n : Z) : Z := (n mod 2 ^ w)%Z.
Definition to_int (w n : Z) : Z :=
  ((n + 2 ^ (w - 1)) mod 2 ^ w - 2 ^ (w - 1))%Z.

(** A successful result mapped, a failure passed on. *)
Definition map_ok {A B} (f : A → B) (r : A + error) : B + error :=
  match r with
  | inl a => inl (f a)
  | inr e => inr e
  end.

(** ** Environment: what lies outside the package

    The methods that a defined type [T] declares on [*T] (the receiver is the
    pointer, nil or an address), the functions behind callback values, and
    the floating-point and duration routines of the Go standard library. *)
Record method_set := mkMethods {
  has_Error : bool;
  UnmarshalText_m : option (option loc → string → M (option error));
  MarshalText_m : option (option loc → M (string + error));
  Set_m : option (option loc → string → M (option error));
  String_m : option (option loc → M string);
  OnSet_m : option (option loc → string → M (option error));
  IsBool_m : option (option loc → M bool);
  DefaultValueText_m : option (option loc → M string)
}.

Definition no_methods : method_set :=
  mkMethods false None None None None None None None.

Record Env := mkEnv {
  env_arch : arch;
  ParseFloat : string → Z → Z + error;
  to_float32 : Z → Z;
  FormatFloat : Z → Z → string;
  ParseDuration : string → Z + error;
  DurationString : Z → string;
  methods : string → method_set;
  call_string : nat → string → M (option error);
  call_bool : nat → bool → M (option error);
  SprintOther : type → value → store → string;
  ErrorText : error → string
}.

(** The interfaces of the package, as satisfied by [*T] for [T = TNamed n]. *)
Definition TextMarshalUnmarshaler (ms : method_set) :=
  match UnmarshalText_m ms, MarshalText_m ms with
  | Some u, Some m => Some (u, m)
  | _, _ => None
  end.

Definition StringSetter (ms : method_set) :=
  match Set_m ms, String_m ms with
  | Some s, Some _ => Some s
  | _, _ => None
  end.

Definition OnSetter (ms : method_set) :=
  match OnSet_m ms, IsBool_m ms with
  | Some s, Some _ => Some s
  | _, _ => None
  end.

(** ** [vtypes.go] *)

(** The number of pointer layers of the static type of a [reflect.Value]:
    an upper bound on the iterations of the loops that follow pointers. *)
Fixpoint type_depth (t : type) : nat :=
  match t with
  | TPtr t' => S (type_depth t')
  | _ => 0
  end.

Definition ptr_depth (v : rvalue) : nat :=
  match v with
  | RV t _ => type_depth t
  | RSlicePtr _ => 1
  | _ => 0
  end.

(** [*p] for reading, and [*p = x]. *)
Definition deref (p : option loc) : M value :=
  match p with
  | Some l => load (At l)
  | None => panic "invalid memory address or nil pointer dereference"
  end.

Definition assign (p : option loc) (c : type * value) : M unit :=
  match p with
  | Some l => set_cell l c
  | None => panic "invalid memory address or nil pointer dereference"
  end.

(** The loop of [tempValue]: [for current.Kind() == reflect.Pointer]. *)
Fixpoint tempValue_loop (n : nat) (current : rvalue) (pointerChain : list rvalue)
  : M (rvalue * list rvalue) :=
  match n with
  | O => mret (current, pointerChain)
  | S n' =>
      if decide (KindOf current = Pointer) then
        isnil ← IsNil current;
        (if isnil : bool then
           t ← TypeElem current;
           newVal ← New t;
           SetValue current newVal
         else mret tt);;
        let pointerChain := pointerChain ++ [current] in
        current ← Elem current;
        tempValue_loop n' current pointerChain
      else mret (current, pointerChain)
  end.

Definition tempValue (val : any) : M (any * list rvalue + error) :=
  let v := ValueOf val in
  if decide (KindOf v ≠ Pointer) then mret (inr ErrTypeUnsupported)
  else
    '(_, pointerChain) ← tempValue_loop (ptr_depth v) v [];
    match last pointerChain with
    | None => mret (inr ErrTypeUnsupported)
    | Some p =>
        prepared ← Interface p;
        mret (inl (prepared, pointerChain))
    end.

Section Dispatch.
Variable E : Env.

(** The parse of one built-in kind, with the conversion that
    [hydrateValue] applies before it stores the result. *)
Definition parseBasic (b : basic) (raw : string) : value + error :=
  let a := env_arch E in
  match b with
  | BString => inl (VString raw)
  | BBool => map_ok VBool (ParseBool raw)
  | BInt => map_ok VInt (Atoi a raw)
  | BInt64 => map_ok VInt (ParseInt a raw 0)
  | BInt8 => map_ok (λ n, VInt (to_int 8 n)) (ParseInt a raw 8)
  | BInt16 => map_ok (λ n, VInt (to_int 16 n)) (ParseInt a raw 16)
  | BInt32 => map_ok (λ n, VInt (to_int 32 n)) (ParseInt a raw 32)
  | BUint => map_ok (λ n, VInt (to_uint (IntSize a) n)) (ParseUint a raw 0)
  | BUint64 => map_ok VInt (ParseUint a raw 0)
  | BUint8 => map_ok (λ n, VInt (to_uint 8 n)) (ParseUint a raw 8)
  | BUint16 => map_ok (λ n, VInt (to_uint 16 n)) (ParseUint a raw 16)
  | BUint32 => map_ok (λ n, VInt (to_uint 32 n)) (ParseUint a raw 32)
  | BFloat64 => map_ok VFloat (ParseFloat E raw 64)
  | BFloat32 => map_ok (λ f, VFloat (to_float32 E f)) (ParseFloat E raw 32)
  | BDuration => map_ok VInt (ParseDuration E raw)
  end.

(** [OnSetFunc.OnSet] and [OnSetBoolFunc.OnSet], called through a pointer
    to the function value. *)
Definition OnSetFunc_OnSet (p : option loc) (val : string) : M (option error) :=
  f ← deref p;
  match f with
  | VFunc (Some id) => call_string E id val
  | _ => panic "invalid memory address or nil pointer dereference"
  end.

Definition OnSetBoolFunc_OnSet (p : option loc) (s : string) : M (option error) :=
  f ← deref p;
  match ParseBool s with
  | inr err => mret (Some err)
  | inl b =>
      match f with
      | VFunc (Some id) => call_bool E id b
      | _ => panic "invalid memory address or nil pointer dereference"
      end
  end.

(** [um r raw] is the call [v.UnmarshalText([]byte(raw))] on the [*Slice]
    at [r]; it is [UnmarshalText] below. *)
Variable um : nat → string → M (option error).

(** [hydrateValue]: the type switch, in the order of its cases. *)
Definition hydrateValue (val : any) (raw : string) : M (option error) :=
  match val with
  | ASlice r => um r raw
  | AVal (TPtr (TBasic b)) (VPtr p) =>
      match parseBasic b raw with
      | inr err => mret (Some err)
      | inl x => assign p (TBasic b, x);; mret None
      end
  | AVal (TPtr (TNamed n)) (VPtr p) =>
      let ms := methods E n in
      if has_Error ms then mret (Some (ErrValue val))
      else
        match TextMarshalUnmarshaler ms, StringSetter ms, OnSetter ms with
        | Some (unmarshal, _), _, _ => unmarshal p raw
        | None, Some set, _ => set p raw
        | None, None, Some onset => onset p raw
        | None, None, None => mret (Some ErrTypeUnsupported)
        end
  | AVal (TPtr TOnSetFunc) (VPtr p) => OnSetFunc_OnSet p raw
  | AVal (TPtr TOnSetBoolFunc) (VPtr p) => OnSetBoolFunc_OnSet p raw
  | _ => mret (Some ErrTypeUnsupported)
  end.

(** The loop of [assignThroughChain], from the last pointer to the first. *)
Fixpoint assign_loop (rev_chain : list rvalue) (currentVal : rvalue) : M unit :=
  match rev_chain with
  | [] => mret tt
  | pointer :: rest =>
      e ← Elem pointer;
      SetValue e currentVal;;
      assign_loop rest pointer
  end.

Definition assignThroughChain (prepared : any) (pointerChain : list rvalue)
  : M (option error) :=
  if decide (length pointerChain = 0) then mret None
  else
    let preparedVal := ValueOf prepared in
    if decide (KindOf preparedVal ≠ Pointer) then mret (Some ErrTypeUnsupported)
    else
      currentVal ← Elem preparedVal;
      assign_loop (rev pointerChain) currentVal;;
      mret None.

(** [Hydrate], with [um] for the call of [UnmarshalText] on a [*Slice]. *)
Definition HydrateWith (val : any) (raw : string) : M (option error) :=
  let wrap := λ err, NewError (NewHydrateError err val) in
  r ← tempValue val;
  match r with
  | inr err => mret (Some (wrap err))
  | inl (tmpVal, pointerChain) =>
      err ← hydrateValue tmpVal raw;
      match err with
      | Some err => mret (Some (wrap err))
      | None =>
          err ← assignThroughChain tmpVal pointerChain;
          match err with
          | Some err => mret (Some (wrap err))
          | None => mret None
          end
      end
  end.
End Dispatch.

(** ** [slice.go] *)

Definition errNotSlice : error :=
  ErrOther "slice: contained value is not a slice or pointer to a slice".

Definition set_started (s : Slice) (b : bool) : Slice :=
  {| ptrValue := ptrValue s; started := b; TypeName := TypeName s;
     SplitEach := SplitEach s; Separator := Separator s; NonAccum := NonAccum s |}.

(** The loop of [pointerLevels]. *)
Fixpoint pointerLevels_loop (n : nat) (v : rvalue) (levels : nat) : M nat :=
  match n with
  | O => mret levels
  | S n' =>
      if decide (KindOf v = Pointer) then
        let levels := S levels in
        v ← Elem v;
        pointerLevels_loop n' v levels
      else mret levels
  end.

Definition pointerLevels (r : nat) : M nat :=
  s ← get_wrapper r;
  let v := ValueOf (ptrValue s) in
  pointerLevels_loop (ptr_depth v) v 0.

(** [for i := 0; i < n; i++ { v = v.Elem() }] *)
Fixpoint Elem_times (n : nat) (v : rvalue) : M rvalue :=
  match n with
  | O => mret v
  | S n' => v ← Elem v; Elem_times n' v
  end.

(** [setValue] *)
Definition setValue (r : nat) (slice : rvalue) : M unit :=
  s ← get_wrapper r;
  let v := ValueOf (ptrValue s) in
  levels ← pointerLevels r;
  v ← Elem_times (levels - 1) v;
  e ← Elem v;
  SetValue e slice.

(** The first loop of [UnmarshalText]: nil layers are initialized on the way
    to the slice. *)
Fixpoint unmarshal_loop (n : nat) (v : rvalue) : M rvalue :=
  match n with
  | O => mret v
  | S n' =>
      if decide (KindOf v = Pointer) then
        isnil ← IsNil v;
        (if isnil : bool then
           t ← TypeElem v;
           newVal ← New t;
           SetValue v newVal
         else mret tt);;
        v ← Elem v;
        unmarshal_loop n' v
      else mret v
  end.

Section Sequence.
(** [Hydrate], as the chunk loop calls it on each new item. *)
Variable Hydrate : any → string → M (option error).

(** The second loop of [UnmarshalText], over the chunks. *)
Fixpoint chunk_loop (r : nat) (v : rvalue) (valType : type) (chunks : list string)
  : M (option error) :=
  match chunks with
  | [] => mret None
  | chunk :: rest =>
      if decide (String.length chunk = 0) then chunk_loop r v valType rest
      else
        item ← New valType;
        itf ← Interface item;
        err ← Hydrate itf chunk;
        match err with
        | Some err => mret (Some (ErrWrap "slice: unmarshal text" err))
        | None =>
            x ← Elem item;
            slice ← Append v x;
            setValue r slice;;
            chunk_loop r v valType rest
        end
  end.

(** [Slice.UnmarshalText] on the wrapper at [r]. *)
Definition UnmarshalTextWith (r : nat) (text : string) : M (option error) :=
  if decide (String.length text = 0) then mret None
  else
    s ← get_wrapper r;
    let v := ValueOf (ptrValue s) in
    v ← unmarshal_loop (ptr_depth v) v;
    if decide (KindOf v ≠ SliceKind) then mret (Some errNotSlice)
    else
      (if negb (started s) || NonAccum s then
         t ← TypeOf v;
         setValue r (MakeSlice00 t)
       else mret tt);;
      s' ← get_wrapper r;
      set_wrapper r (set_started s' true);;
      valType ← TypeElem v;
      let sep := if negb (SplitEach s) then Separator s else Separator s in
      chunk_loop r v valType (Split text sep).
End Sequence.

(** The loop of [MarshalText]: [None] when a nil pointer is met. *)
Fixpoint marshal_loop (n : nat) (v : rvalue) : M (option rvalue) :=
  match n with
  | O => mret (Some v)
  | S n' =>
      if decide (KindOf v = Pointer) then
        isnil ← IsNil v;
        if isnil : bool then mret None
        else v ← Elem v; marshal_loop n' v
      else mret (Some v)
  end.

Section Render.
Variable E : Env.

(** [fmt.Sprint] of a value of a built-in kind. *)
Definition sprint_basic (b : basic) (v : value) : string :=
  match b, v with
  | BString, VString s => s
  | BBool, VBool x => if x then "true" else "false"
  | BFloat32, VFloat f => FormatFloat E f 32
  | BFloat64, VFloat f => FormatFloat E f 64
  | BDuration, VInt d => DurationString E d
  | (BInt | BInt8 | BInt16 | BInt32 | BInt64), VInt z => FormatInt z
  | (BUint | BUint8 | BUint16 | BUint32 | BUint64), VInt z => FormatUint z
  | _, _ => ""
  end.

(** [fmt.Sprint] *)
Definition Sprint (t : type) (v : value) : M string :=
  match t with
  | TBasic b => mret (sprint_basic b v)
  | _ => σ ← get_store; mret (SprintOther E t v σ)
  end.

(** [out[i] = fmt.Sprint(v.Index(i).Interface())] for each element. *)
Fixpoint sprint_elems (te : type) (elems : list value) : M (list string) :=
  match elems with
  | [] => mret []
  | x :: rest =>
      o ← Sprint te x;
      out ← sprint_elems te rest;
      mret (o :: out)
  end.

(** [Slice.MarshalText]: the text (nil or bytes) and the error. *)
Definition MarshalText (r : nat) : M (option string * option error) :=
  s ← get_wrapper r;
  let v := ValueOf (ptrValue s) in
  o ← marshal_loop (ptr_depth v) v;
  match o with
  | None => mret (None, None)
  | Some (RV (TSlice te) p) =>
      x ← load p;
      match x with
      | VSlice elems =>
          out ← sprint_elems te (slice_elems elems);
          mret (Some (Join out (Separator s)), None)
      | _ => panic "reflect: call of reflect.Value.Len on a value that is no slice"
      end
  | Some _ => mret (None, Some errNotSlice)
  end.

(** What the loop of [DefaultValueText] reaches: [None] at a nil pointer. *)
Fixpoint default_loop (n : nat) (vo : rvalue) : M (option rvalue) :=
  match n with
  | O => mret (Some vo)
  | S n' =>
      if decide (KindOf vo = Pointer) then
        isnil ← IsNil vo;
        if isnil : bool then mret None
        else vo ← Elem vo; default_loop n' vo
      else mret (Some vo)
  end.

(** The [default] case of [DefaultValueText]. *)
Definition DefaultValueText_default (val : any) : M string :=
  let vo := ValueOf val in
  if decide (KindOf vo = Func) then mret ""
  else
    o ← default_loop (ptr_depth vo) vo;
    match o with
    | None => mret ""
    | Some (RV t p) => x ← load p; Sprint t x
    | Some _ => mret "<invalid reflect.Value>"
    end.

(** [DefaultValueText] *)
Definition DefaultValueText (val : any) : M string :=
  match val with
  | ASlice r =>
      '(t, err) ← MarshalText r;
      match err with
      | Some err => mret (ErrorText E err)
      | None => mret (default "" t)
      end
  | AVal (TPtr (TNamed n)) (VPtr p) =>
      let ms := methods E n in
      match DefaultValueText_m ms, TextMarshalUnmarshaler ms with
      | Some f, _ => f p
      | None, Some (_, marshal) =>
          res ← marshal p;
          match res with
          | inr err => mret (ErrorText E err)
          | inl t => mret t
          end
      | None, None =>
          if has_Error ms then mret ""
          else
            match String_m ms with
            | Some f => f p
            | None => DefaultValueText_default val
            end
      end
  | AVal (TPtr (TBasic BDuration)) (VPtr p) =>
      d ← deref p;
      Sprint (TBasic BDuration) d
  | AVal (TBasic BDuration) d => Sprint (TBasic BDuration) d
  | _ => DefaultValueText_default val
  end.
End Render.

(** ** Tying [Hydrate] and [UnmarshalText] together

    [Hydrate] calls [UnmarshalText] on a [*Slice], and [UnmarshalText] calls
    [Hydrate] on each item.  An item is a pointer to a fresh value of the
    element type, never a [*Slice], and on such a value [Hydrate] does not
    reach the [Slice] case of the type switch (lemma [Hydrate_AVal]); so the
    recursion is cut there. *)
Definition HydrateItem (E : Env) : any → string → M (option error) :=
  HydrateWith E (λ _ _, mret (Some ErrTypeUnsupported)).

Definition UnmarshalText (E : Env) : nat → string → M (option error) :=
  UnmarshalTextWith (HydrateItem E).

Definition Hydrate (E : Env) : any → string → M (option error) :=
  HydrateWith E (UnmarshalText E).

(** ** Reading destinations *)

Fixpoint base_type (t : type) : type :=
  match t with
  | TPtr t' => base_type t'
  | _ => t
  end.

(** The value has the shape of its type. *)
Definition has_shape (t : type) (v : value) : bool :=
  match t, v with
  | TBasic BString, VString _ => true
  | TBasic BBool, VBool _ => true
  | TBasic (BFloat32 | BFloat64), VFloat _ => true
  | TBasic (BInt | BInt8 | BInt16 | BInt32 | BInt64), VInt _ => true
  | TBasic (BUint | BUint8 | BUint16 | BUint32 | BUint64), VInt _ => true
  | TBasic BDuration, VInt _ => true
  | TPtr _, VPtr _ => true
  | TSlice _, VSlice _ => true
  | TNamed _, VStruct _ => true
  | (TOnSetFunc | TOnSetBoolFunc | TFunc), VFunc _ => true
  | _, _ => false
  end.

(** The layers of a chain, as far as they are allocated, are cells of the
    right types, and the terminal value has the shape of the terminal type. *)
Fixpoint chain_ok (cs : list (type * value)) (t : type) (v : value) : bool :=
  match t, v with
  | TPtr _, VPtr None => true
  | TPtr t', VPtr (Some l) =>
      match cs !! l with
      | Some (t'', v') => bool_decide (t'' = t') && chain_ok cs t' v'
      | None => false
      end
  | TPtr _, _ => false
  | _, _ => has_shape t v
  end.

(** The terminal value of a chain; the zero value when a layer is nil. *)
Fixpoint terminal (cs : list (type * value)) (t : type) (v : value) : value :=
  match t, v with
  | TPtr t', VPtr (Some l) =>
      match cs !! l with
      | Some (_, v') => terminal cs t' v'
      | None => zero (base_type t')
      end
  | TPtr t', _ => zero (base_type t')
  | _, _ => v
  end.

(** The terminal cell reached from cell [l] of type [t] when every layer is
    allocated; [None] when a layer is nil. *)
Fixpoint target (cs : list (type * value)) (t : type) (l : loc) : option loc :=
  match t with
  | TPtr t' =>
      match cs !! l with
      | Some (t0, VPtr (Some l')) => if decide (t0 = t) then target cs t' l' else None
      | _ => None
      end
  | _ =>
      match cs !! l with
      | Some (t0, _) => if decide (t0 = t) then Some l else None
      | None => None
      end
  end.

(** A destination handle is a pointer that is not nil, to a well-formed
    chain. *)
Definition handle_ok (σ : store) (val : any) : bool :=
  match val with
  | AVal (TPtr t) (VPtr (Some l)) => chain_ok (cells σ) (TPtr t) (VPtr (Some l))
  | _ => false
  end.

(** The terminal cell of a handle, and the value in it. *)
Definition dest (σ : store) (val : any) : option loc :=
  match val with
  | AVal (TPtr t) (VPtr (Some l)) => target (cells σ) t l
  | _ => None
  end.

Definition dest_value (σ : store) (val : any) : option value :=
  l ← dest σ val; snd <$> cells σ !! l.

(** What the pointer-following loops of [tempValue] and [UnmarshalText] do to
    the cells, starting at cell [l] of type [t]: every nil layer gets a new
    zero cell.  The result is the cells, the terminal cell and the layers
    passed. *)
Fixpoint resolve (t : type) (cs : list (type * value)) (l : loc)
  : list (type * value) * loc * list rvalue :=
  match t with
  | TPtr t' =>
      let '(cs1, l') :=
        match cs !! l with
        | Some (_, VPtr (Some l')) => (cs, l')
        | _ => (<[l := (t, VPtr (Some (length cs)))]> (cs ++ [(t', zero t')]), length cs)
        end in
      let '(cs2, lf, chain) := resolve t' cs1 l' in
      (cs2, lf, RV t (At l) :: chain)
  | _ => (cs, l, [])
  end.

Definition with_cells (σ : store) (cs : list (type * value)) : store :=
  {| cells := cs; wrappers := wrappers σ |}.

(** The layers passed on the way from cell [l] to the terminal cell. *)
Fixpoint path (cs : list (type * value)) (t : type) (l : loc) : list rvalue :=
  match t with
  | TPtr t' =>
      RV t (At l) ::
        match cs !! l with
        | Some (_, VPtr (Some l')) => path cs t' l'
        | _ => []
        end
  | _ => []
  end.

(** [cs'] keeps every cell of [cs] with its type, and with its value unless
    the cell held a nil pointer. *)
Definition grows (cs cs' : list (type * value)) : Prop :=
  ∀ l t v, cs !! l = Some (t, v) →
    ∃ v', cs' !! l = Some (t, v') ∧ (v ≠ VPtr None → v' = v).

(** [cs'] keeps every cell of [cs] with its type, and the value of every
    cell that holds a pointer. *)
Definition keeps (cs cs' : list (type * value)) : Prop :=
  ∀ l t v, cs !! l = Some (t, v) →
    ∃ v', cs' !! l = Some (t, v') ∧ ((∃ t', t = TPtr t') → v' = v).

(** The uniform wrapping that [Hydrate] applies to every failure. *)
Definition wrap_error (val : any) (err : error) : error :=
  NewError (NewHydrateError err val).

(** ** A plain environment

    No defined types and no callbacks; the floating-point and duration
    routines read and print whole numbers only.  It serves to run the
    package on concrete inputs. *)
Definition plainEnv (a : arch) : Env :=
  {| env_arch := a;
     ParseFloat := λ s _, ParseInt a s 64;
     to_float32 := λ f, f;
     FormatFloat := λ f _, FormatInt f;
     ParseDuration := λ s, ParseInt a s 64;
     DurationString := FormatInt;
     methods := λ _, no_methods;
     call_string := λ _ _, mret None;
     call_bool := λ _ _, mret None;
     SprintOther := λ _ _ _, "";
     ErrorText := λ _, "" |}.

(** The terminal type matches no case of the type switch of [hydrateValue]. *)
Definition unsupported (E : Env) (t : type) : bool :=
  match t with
  | TNamed n =>
      let ms := methods E n in
      negb (has_Error ms)
      && bool_decide (TextMarshalUnmarshaler ms = None)
      && bool_decide (StringSetter ms = None)
      && bool_decide (OnSetter ms = None)
  | TSlice _ | TFunc => true
  | _ => false
  end.

(** The dynamic type of an interface value, as [%T] prints it. *)
Inductive dyn_type :=
| DNil
| DType (t : type)
| DSlicePtr.

Definition type_identity (val : any) : dyn_type :=
  match val with
  | ANil => DNil
  | AVal t _ => DType t
  | ASlice _ => DSlicePtr
  end.

(** The innermost error of a chain of wrapped errors. *)
Fixpoint root_cause (e : error) : error :=
  match e with
  | Error_ c | HydrateError_ c _ | ErrWrap _ c => root_cause c
  | _ => e
  end.

(** The type that an error returned by [Hydrate] names. *)
Definition hydrate_error_type (e : error) : option dyn_type :=
  match e with
  | Error_ (HydrateError_ _ v) => Some (type_identity v)
  | _ => None
  end.


(** Some layer of the chain is a nil pointer. *)
Fixpoint has_nil_layer (cs : list (type * value)) (t : type) (v : value) : bool :=
  match t, v with
  | TPtr _, VPtr None => true
  | TPtr t', VPtr (Some l) =>
      match cs !! l with
      | Some (_, v') => has_nil_layer cs t' v'
      | None => false
      end
  | _, _ => false
  end.

(** A computation that leaves the store as it found it. *)
Definition pure {A} (m : M A) : Prop :=
  ∀ σ a σ', m σ = Done a σ' → σ' = σ.

(** The elements of the sequence that a handle leads to; none when a layer
    is nil. *)
Definition contents (σ : store) (val : any) : list value :=
  match val with
  | AVal t v =>
      match terminal (cells σ) t v with
      | VSlice o => slice_elems o
      | _ => []
      end
  | _ => []
  end.

(** What the chunk loop does with elements of a built-in kind: the values
    appended, and the first failure. *)
Fixpoint convert_chunks (E : Env) (b : basic) (chunks : list string)
  : list value * option error :=
  match chunks with
  | [] => ([], None)
  | chunk :: rest =>
      if decide (String.length chunk = 0) then convert_chunks E b rest
      else
        match parseBasic E b chunk with
        | inr err => ([], Some err)
        | inl x => let '(xs, e) := convert_chunks E b rest in (x :: xs, e)
        end
  end.

(** The error that [UnmarshalText] returns for the failure [e] of an item of
    type [te]: [err] is [e], wrapped by [Hydrate] on the item and then by
    the chunk loop. *)
Definition chunk_failure (te : type) (e : option error) (res : option error) : Prop :=
  match e with
  | None => res = None
  | Some err =>
      ∃ li, res = Some (ErrWrap "slice: unmarshal text"
                          (wrap_error (AVal (TPtr te) (VPtr (Some li))) err))
  end.

(** [bytes.Contains] for a separator that is not empty. *)
Fixpoint Contains (s sep : string) : bool :=
  match s with
  | "" => false
  | String _ s' => HasPrefix s sep || Contains s' sep
  end.

(** The contents that a call of [UnmarshalText] starts from. *)
Definition prior_contents (σ : store) (s : Slice) : list value :=
  if negb (started s) || NonAccum s then [] else contents σ (ptrValue s).

(** A sequence destination to run examples on: [var xs []int], nil, wrapped
    by [MakeSlice(&xs)]. *)
Definition int_slice_handle : any :=
  AVal (TPtr (TSlice (TBasic BInt))) (VPtr (Some 0)).

Definition int_slice_store : store :=
  mkStore [(TSlice (TBasic BInt), VSlice None)] [MakeSlice int_slice_handle].

(** The bit sizes that the package passes to [strconv]. *)
Definition size_ok (a : arch) (bitSize : Z) : Prop :=
  bitSizeOf a bitSize = 8%Z ∨ bitSizeOf a bitSize = 16%Z
  ∨ bitSizeOf a bitSize = 32%Z ∨ bitSizeOf a bitSize = 64%Z.

(** What the Go standard library promises of its floating-point and
    duration routines: a value that was read prints as text that reads back
    as the same value ([fmt] prints the shortest text that does). *)
Definition float_round_trip (E : Env) : Prop :=
  (∀ s f, ParseFloat E s 64 = inl f →
          ParseFloat E (FormatFloat E f 64) 64 = inl f)
  ∧ (∀ s f, ParseFloat E s 32 = inl f →
            ∃ f', ParseFloat E (FormatFloat E (to_float32 E f) 32) 32 = inl f'
                  ∧ to_float32 E f' = to_float32 E f).

Definition duration_round_trip (E : Env) : Prop :=
  ∀ s d, ParseDuration E s = inl d →
         ParseDuration E (DurationString E d) = inl d.

(** A [reflect.Value] that is not a [*Slice] or a [Slice]. *)
Definition plain_value (v : rvalue) : bool :=
  match v with
  | RInvalid | RV _ _ => true
  | _ => false
  end.

(** ** Describing a destination: [ValueTypeName] and [IsBool] *)

(** [reflect.Type.Name] of a built-in type. *)
Definition basic_name (b : basic) : string :=
  match b with
  | BString => "string" | BBool => "bool"
  | BInt => "int" | BInt8 => "int8" | BInt16 => "int16" | BInt32 => "int32"
  | BInt64 => "int64"
  | BUint => "uint" | BUint8 => "uint8" | BUint16 => "uint16"
  | BUint32 => "uint32" | BUint64 => "uint64"
  | BFloat32 => "float32" | BFloat64 => "float64"
  | BDuration => "Duration"
  end.

(** [reflect.Type.Name]: the name of a defined type, empty for a type that
    is not defined (a pointer, a slice, a function type). *)
Definition Name (t : type) : string :=
  match t with
  | TBasic b => basic_name b
  | TNamed n => n
  | TOnSetFunc => "OnSetFunc"
  | TOnSetBoolFunc => "OnSetBoolFunc"
  | TPtr _ | TSlice _ | TFunc => ""
  end.

(** The loop of [Slice.ValueTypeName] and [Slice.IsBool]:
    [for rv.Kind() == reflect.Pointer { rv = rv.Elem() }]; a nil pointer is
    not tested for. *)
Fixpoint elem_loop (n : nat) (rv : rvalue) : M rvalue :=
  match n with
  | O => mret rv
  | S n' =>
      if decide (KindOf rv = Pointer) then
        rv ← Elem rv;
        elem_loop n' rv
      else mret rv
  end.

(** [Slice.ValueTypeName] on the wrapper at [r]. *)
Definition Slice_ValueTypeName (r : nat) : M string :=
  s ← get_wrapper r;
  let rv := ValueOf (ptrValue s) in
  rv ← elem_loop (ptr_depth rv) rv;
  t ← TypeElem rv;
  let name := Name t in
  mret (if SplitEach s then name +:+ "(multisep:" +:+ Separator s +:+ ")"
        else name).

(** [Slice.IsBool] on the wrapper at [r]. *)
Definition Slice_IsBool (r : nat) : M bool :=
  s ← get_wrapper r;
  let rv := ValueOf (ptrValue s) in
  rv ← elem_loop (ptr_depth rv) rv;
  t ← TypeElem rv;
  mret (bool_decide (type_kind t = Bool)).

(** [Slice.Value] *)
Definition Slice_Value (r : nat) : M any :=
  s ← get_wrapper r;
  mret (ptrValue s).

Section Describe.
Variable E : Env.
(** The [ValueTypeName] method that a defined type declares on [*T]. *)
Variable ValueTypeName_m : string → option (option loc → M string).

(** [ValueTypeName]: the type switch, in the order of its cases.  The loop
    of the [default] case runs on the type alone and ends at [base_type]. *)
Definition ValueTypeName (val : any) : M string :=
  match val with
  | ASlice r => Slice_ValueTypeName r
  | AVal (TPtr (TNamed n)) (VPtr p) =>
      let ms := methods E n in
      match ValueTypeName_m n with
      | Some f => f p
      | None =>
          match IsBool_m ms with
          | Some isBool =>
              b ← isBool p;
              mret (if b : bool then "bool" else "value")
          | None =>
              match TextMarshalUnmarshaler ms, StringSetter ms with
              | None, None =>
                  if has_Error ms then mret ""
                  else mret (Name (base_type (TPtr (TNamed n))))
              | _, _ => mret "value"
              end
          end
      end
  | AVal TOnSetFunc _ => mret "value"
  | AVal TOnSetBoolFunc _ => mret "bool"
  | AVal (TPtr TOnSetFunc) (VPtr p) => deref p;; mret "value"
  | AVal (TPtr TOnSetBoolFunc) (VPtr p) => deref p;; mret "bool"
  | ANil => mret ""
  | AVal t _ => mret (Name (base_type t))
  end.
End Describe.

(** ** [ConvertCompatible] *)

(** What is passed to [ConvertCompatible]: a function of one of the two
    plain function types that it converts, or any other value. *)
Inductive compat_arg :=
| FuncStringError (f : option nat)
| FuncBoolError (f : option nat)
| Other (val : any).

(** [s := MakeSlice(val); return &s]: a new wrapper. *)
Definition alloc_wrapper (s : Slice) : M nat :=
  σ ← get_store;
  put_store {| cells := cells σ; wrappers := wrappers σ ++ [s] |};;
  mret (length (wrappers σ)).

(** [ConvertCompatible] *)
Definition ConvertCompatible (val : compat_arg) : M any :=
  match val with
  | FuncStringError f => mret (AVal TOnSetFunc (VFunc f))
  | FuncBoolError f => mret (AVal TOnSetBoolFunc (VFunc f))
  | Other val =>
      let vo := ValueOf val in
      vo ← (if decide (KindOf vo = Pointer) then Elem vo else mret vo);
      if decide (KindOf vo = SliceKind) then
        r ← alloc_wrapper (MakeSlice val);
        mret (ASlice r)
      else mret val
  end.

(** An environment with the methods of its defined types replaced. *)
Definition with_methods (E : Env) (ms : string → method_set) : Env :=
  {| env_arch := env_arch E;
     ParseFloat := ParseFloat E;
     to_float32 := to_float32 E;
     FormatFloat := FormatFloat E;
     ParseDuration := ParseDuration E;
     DurationString := DurationString E;
     methods := ms;
     call_string := call_string E;
     call_bool := call_bool E;
     SprintOther := SprintOther E;
     ErrorText := ErrorText E |}.


Definition setter_type_env : Env :=
  with_methods (plainEnv Arch64)
    (λ _, mkMethods false None None
            (Some (λ p raw, assign p (TNamed "T", VStruct 1);; mret None))
            (Some (λ _, mret ""))
            (Some (λ _ _, panic "OnSet is not called"))
            (Some (λ _, mret false)) None).


(** * Properties *)

(** ** The standard library model on examples *)

Example Split_ex1 : Split "1,2,,3" "," = ["1"; "2"; ""; "3"].
Proof. reflexivity. Qed.
Example Split_ex2 : Split "a<>b<" "<>" = ["a"; "b<"].
Proof. reflexivity. Qed.
Example Split_ex3 : Split "abc" "" = ["a"; "b"; "c"].
Proof. reflexivity. Qed.
Example Split_ex4 : Split "" "," = [""].
Proof. reflexivity. Qed.
Example ParseInt_ex1 : ParseInt Arch64 "-128" 8 = inl (-128)%Z.
Proof. reflexivity. Qed.
Example ParseInt_ex2 : ParseInt Arch64 "128" 8 = inr (ErrRange "ParseInt" "128").
Proof. reflexivity. Qed.
Example Atoi_ex1 : Atoi Arch32 "+42" = inl 42%Z.
Proof. reflexivity. Qed.
Example Atoi_ex2 : Atoi Arch32 "x" = inr (ErrSyntax "Atoi" "x").
Proof. reflexivity. Qed.
Example FormatInt_ex1 : FormatInt (-1203) = "-1203".
Proof. reflexivity. Qed.
Example ParseUint_ex1 : ParseUint Arch64 "18446744073709551616" 64 = inr (ErrRange "ParseUint" "18446744073709551616").
Proof. vm_compute. reflexivity. Qed.
Example ParseUint_ex2 : ParseUint Arch64 "18446744073709551615" 64 = inl maxUint64.
Proof. vm_compute. reflexivity. Qed.

(** ** Running the monad *)

Lemma bind_run {A B} (m : M A) (f : A → M B) σ :
  (m ≫= f) σ = match m σ with Done a σ' => f a σ' | Panic msg => Panic msg end.
Proof. reflexivity. Qed.

Lemma ret_run {A} (a : A) σ : (mret a : M A) σ = Done a σ.
Proof. reflexivity. Qed.

(** One step of symbolic execution: binds and returns are run. *)
Ltac mrun :=
  repeat progress (rewrite ?bind_run, ?ret_run; cbv beta iota).

Lemma with_cells_id σ : with_cells σ (cells σ) = σ.
Proof. by destruct σ. Qed.

Lemma load_At σ l t v : cells σ !! l = Some (t, v) → load (At l) σ = Done v σ.
Proof. intros H. unfold load. rewrite bind_run. simpl. by rewrite H. Qed.

Lemma set_cell_run σ l c : set_cell l c σ = Done tt (with_cells σ (<[l := c]> (cells σ))).
Proof. reflexivity. Qed.

Lemma New_run σ t :
  New t σ = Done (RV (TPtr t) (Direct (VPtr (Some (length (cells σ))))))
                 (with_cells σ (cells σ ++ [(t, zero t)])).
Proof. reflexivity. Qed.

Lemma get_wrapper_run σ r s : wrappers σ !! r = Some s → get_wrapper r σ = Done s σ.
Proof. intros H. unfold get_wrapper. rewrite bind_run. simpl. by rewrite H. Qed.

Lemma IsNil_At σ t l v :
  cells σ !! l = Some (TPtr t, v) →
  IsNil (RV (TPtr t) (At l)) σ =
    Done (match v with VPtr None => true | _ => false end) σ.
Proof.
  intros H. unfold IsNil. rewrite bind_run, (load_At _ _ _ _ H).
  by destruct v as [| | | |[]| | |].
Qed.

Lemma Elem_At σ t l v :
  cells σ !! l = Some (TPtr t, v) →
  Elem (RV (TPtr t) (At l)) σ =
    Done (match v with VPtr (Some l') => RV t (At l') | _ => RInvalid end) σ.
Proof.
  intros H. unfold Elem. rewrite bind_run, (load_At _ _ _ _ H).
  by destruct v as [| | | |[]| | |].
Qed.

Lemma SetValue_At_Direct σ t l v :
  SetValue (RV t (At l)) (RV t (Direct v)) σ =
    Done tt (with_cells σ (<[l := (t, v)]> (cells σ))).
Proof. unfold SetValue. by rewrite decide_True. Qed.

Lemma SetValue_At_At σ t l l' v :
  cells σ !! l' = Some (t, v) →
  SetValue (RV t (At l)) (RV t (At l')) σ =
    Done tt (with_cells σ (<[l := (t, v)]> (cells σ))).
Proof.
  intros H. unfold SetValue. rewrite decide_True by done.
  by rewrite bind_run, (load_At _ _ _ _ H).
Qed.

(** ** The bound on the loops

    The loops that follow pointers run at most once for each pointer layer
    of the static type; they never stop at a value that is still a
    pointer. *)

Lemma Elem_depth v σ next σ' :
  Elem v σ = Done next σ' → (ptr_depth next ≤ pred (ptr_depth v))%nat.
Proof.
  destruct v as [|[] p| |]; try done; simpl.
  - rewrite bind_run. destruct (load p σ) as [x σ1|]; [|done].
    destruct x as [| | | |[l|]| | |]; intros [= <- _]; simpl; lia.
  - intros [= <- _]. simpl. lia.
Qed.

Lemma depth_0_no_pointer v : ptr_depth v = 0%nat → KindOf v ≠ Pointer.
Proof. destruct v as [|[[]| | | | | |] p| |]; simpl; intros H; congruence. Qed.

Lemma tempValue_loop_exit n : ∀ current acc σ res chain σ',
  (ptr_depth current ≤ n)%nat →
  tempValue_loop n current acc σ = Done (res, chain) σ' →
  KindOf res ≠ Pointer.
Proof.
  induction n as [|n IH]; intros current acc σ res chain σ' Hd; simpl.
  { intros [= <- _ _]. apply depth_0_no_pointer. lia. }
  case_decide; [|by intros [= <- _ _]].
  rewrite bind_run. destruct (IsNil current σ) as [isnil σ1|]; [|done].
  rewrite bind_run.
  match goal with |- context [match ?m σ1 with _ => _ end] =>
    destruct (m σ1) as [[] σ2|]; [|done] end.
  rewrite bind_run. destruct (Elem current σ2) as [next σ3|] eqn:He; [|done].
  apply IH. apply Elem_depth in He. lia.
Qed.

Lemma unmarshal_loop_exit n : ∀ v σ res σ',
  (ptr_depth v ≤ n)%nat →
  unmarshal_loop n v σ = Done res σ' →
  KindOf res ≠ Pointer.
Proof.
  induction n as [|n IH]; intros v σ res σ' Hd; simpl.
  { intros [= <- _]. apply depth_0_no_pointer. lia. }
  case_decide; [|by intros [= <- _]].
  rewrite bind_run. destruct (IsNil v σ) as [isnil σ1|]; [|done].
  rewrite bind_run.
  match goal with |- context [match ?m σ1 with _ => _ end] =>
    destruct (m σ1) as [[] σ2|]; [|done] end.
  rewrite bind_run. destruct (Elem v σ2) as [next σ3|] eqn:He; [|done].
  apply IH. apply Elem_depth in He. lia.
Qed.

Lemma marshal_loop_exit n : ∀ v σ res σ',
  (ptr_depth v ≤ n)%nat →
  marshal_loop n v σ = Done (Some res) σ' →
  KindOf res ≠ Pointer.
Proof.
  induction n as [|n IH]; intros v σ res σ' Hd; simpl.
  { intros [= <- _]. apply depth_0_no_pointer. lia. }
  case_decide; [|by intros [= <- _]].
  rewrite bind_run. destruct (IsNil v σ) as [[|] σ1|]; [done| |done].
  rewrite bind_run. destruct (Elem v σ1) as [next σ2|] eqn:He; [|done].
  apply IH. apply Elem_depth in He. lia.
Qed.

(** ** The pointer-following loop *)

Lemma chain_ok_zero cs t : chain_ok cs t (zero t) = true.
Proof. by destruct t as [[]| | | | | |]. Qed.

Lemma terminal_zero cs t : terminal cs t (zero t) = zero (base_type t).
Proof. by destruct t. Qed.

Lemma terminal_shape t : ∀ cs v,
  chain_ok cs t v = true → has_shape (base_type t) (terminal cs t v) = true.
Proof.
  induction t as [b|t IH|t _|n| | |]; intros cs v; simpl; try done.
  destruct v as [| | | |[l|]| | |]; try done.
  - destruct (cs !! l) as [[t'' v']|]; [|done].
    intros [_ ?]%andb_prop. by apply IH.
  - intros _. rewrite <-(terminal_zero cs). apply IH, chain_ok_zero.
Qed.

Lemma chain_ok_app cs c t v :
  chain_ok cs t v = true → chain_ok (cs ++ [c]) t v = true.
Proof.
  revert v. induction t as [b|t IH|t _|n| | |]; intros v; simpl; try done.
  destruct v as [| | | |[l|]| | |]; try done.
  destruct (cs !! l) as [[t'' v']|] eqn:Hl; [|done].
  rewrite (lookup_app_l_Some _ _ _ _ Hl).
  intros [? ?]%andb_prop. rewrite IH; [|done]. by rewrite H.
Qed.

Lemma tempValue_loop_At t : ∀ cs ws l v acc,
  cs !! l = Some (t, v) →
  chain_ok cs t v = true →
  tempValue_loop (type_depth t) (RV t (At l)) acc (mkStore cs ws) =
    let '(cs2, lf, chain) := resolve t cs l in
    Done (RV (base_type t) (At lf), acc ++ chain) (mkStore cs2 ws).
Proof.
  induction t as [b|t IH|t _|n| | |]; intros cs ws l v acc Hl Hok;
    try (simpl; by rewrite app_nil_r).
  cbn [type_depth tempValue_loop resolve base_type].
  rewrite decide_True by done.
  rewrite bind_run, (IsNil_At (mkStore cs ws) _ _ _ Hl).
  rewrite Hl.
  destruct v as [| | | |[l'|]| | |]; try done.
  - (* the layer is allocated *)
    simpl in Hok. destruct (cs !! l') as [[t'' v']|] eqn:Hl'; [|done].
    apply andb_prop in Hok as [Ht Hok]. apply bool_decide_eq_true in Ht. subst t''.
    mrun. rewrite (Elem_At (mkStore cs ws) _ _ _ Hl). mrun.
    rewrite (IH cs ws l' v' (acc ++ [RV (TPtr t) (At l)]) Hl' Hok).
    destruct (resolve t cs l') as [[cs2 lf] chain].
    by rewrite <-app_assoc.
  - (* the layer is nil: a zero cell is allocated and attached *)
    simpl TypeElem. mrun. rewrite New_run. mrun.
    rewrite SetValue_At_Direct. mrun. unfold with_cells; simpl cells; simpl wrappers.
    assert (Hlt : (l < length cs)%nat) by (by eapply lookup_lt_Some).
    set (cs1 := <[l:=(TPtr t, VPtr (Some (length cs)))]> (cs ++ [(t, zero t)])).
    assert (Hl1 : cs1 !! l = Some (TPtr t, VPtr (Some (length cs)))).
    { unfold cs1. apply list_lookup_insert_eq. rewrite length_app. simpl. lia. }
    assert (Hn : cs1 !! length cs = Some (t, zero t)).
    { unfold cs1. rewrite list_lookup_insert_ne by lia.
      rewrite lookup_app_r by lia. by rewrite Nat.sub_diag. }
    rewrite (Elem_At (mkStore cs1 ws) _ _ _ Hl1). mrun.
    rewrite (IH cs1 ws (length cs) (zero t) (acc ++ [RV (TPtr t) (At l)]) Hn
               (chain_ok_zero _ _)).
    destruct (resolve t cs1 (length cs)) as [[cs2 lf] chain].
    by rewrite <-app_assoc.
Qed.

Lemma grows_refl cs : grows cs cs.
Proof. intros l t v H. eauto. Qed.

Lemma grows_trans cs1 cs2 cs3 : grows cs1 cs2 → grows cs2 cs3 → grows cs1 cs3.
Proof.
  intros H12 H23 l t v H.
  destruct (H12 _ _ _ H) as (v2 & H2 & E2).
  destruct (H23 _ _ _ H2) as (v3 & H3 & E3).
  exists v3. split; [done|]. intros Hv.
  specialize (E2 Hv). subst v2. by apply E3.
Qed.

Lemma grows_attach cs l t t' :
  cs !! l = Some (TPtr t, VPtr None) →
  grows cs (<[l := (TPtr t, VPtr (Some (length cs)))]> (cs ++ [(t', zero t')])).
Proof.
  intros Hl l0 t0 v0 H0.
  assert ((l0 < length cs)%nat) by (by eapply lookup_lt_Some).
  destruct (decide (l0 = l)) as [->|Hne].
  - rewrite Hl in H0. injection H0 as <- <-.
    exists (VPtr (Some (length cs))). split; [|done].
    apply list_lookup_insert_eq. rewrite length_app. simpl. lia.
  - exists v0. split; [|done].
    rewrite list_lookup_insert_ne by done. by apply lookup_app_l_Some.
Qed.

Lemma resolve_spec t : ∀ cs l v,
  cs !! l = Some (t, v) →
  chain_ok cs t v = true →
  let '(cs2, lf, chain) := resolve t cs l in
  grows cs cs2 ∧ target cs2 t l = Some lf ∧ chain = path cs2 t l
  ∧ cs2 !! lf = Some (base_type t, terminal cs t v).
Proof.
  induction t as [b|t IH|t _|n| | |]; intros cs l v Hl Hok;
    try (simpl; rewrite Hl, decide_True by done; eauto using grows_refl).
  cbn [resolve]. rewrite Hl.
  destruct v as [| | | |[l'|]| | |]; try done.
  - simpl in Hok. destruct (cs !! l') as [[t'' v']|] eqn:Hl'; [|done].
    apply andb_prop in Hok as [Ht Hok]. apply bool_decide_eq_true in Ht. subst t''.
    specialize (IH cs l' v' Hl' Hok).
    destruct (resolve t cs l') as [[cs2 lf] chain].
    destruct IH as (Hg & Ht & Hp & Hx).
    destruct (Hg _ _ _ Hl) as (v2 & Hl2 & Hv2). rewrite Hv2 in Hl2 by done.
    repeat split; [done| | |by simpl; rewrite Hl']; simpl; rewrite Hl2.
    + by rewrite decide_True.
    + by rewrite Hp.
  - assert (Hlt : (l < length cs)%nat) by (by eapply lookup_lt_Some).
    set (cs1 := <[l:=(TPtr t, VPtr (Some (length cs)))]> (cs ++ [(t, zero t)])).
    assert (Hl1 : cs1 !! l = Some (TPtr t, VPtr (Some (length cs)))).
    { unfold cs1. apply list_lookup_insert_eq. rewrite length_app. simpl. lia. }
    assert (Hn : cs1 !! length cs = Some (t, zero t)).
    { unfold cs1. rewrite list_lookup_insert_ne by lia.
      rewrite lookup_app_r by lia. by rewrite Nat.sub_diag. }
    specialize (IH cs1 (length cs) (zero t) Hn (chain_ok_zero _ _)).
    destruct (resolve t cs1 (length cs)) as [[cs2 lf] chain].
    destruct IH as (Hg & Ht & Hp & Hx).
    destruct (Hg _ _ _ Hl1) as (v2 & Hl2 & Hv2). rewrite Hv2 in Hl2 by done.
    repeat split; [|simpl; rewrite Hl2..|by rewrite Hx, terminal_zero].
    + eapply grows_trans; [|exact Hg]. by apply grows_attach.
    + by rewrite decide_True.
    + by rewrite Hp.
Qed.

(** Once every layer is allocated the loop changes nothing. *)
Lemma resolve_target t : ∀ cs l lf,
  target cs t l = Some lf → resolve t cs l = (cs, lf, path cs t l).
Proof.
  induction t as [b|t IH|t _|n| | |]; intros cs l lf; simpl;
    try (destruct (cs !! l) as [[t0 v0]|]; [|done]; case_decide; congruence).
  destruct (cs !! l) as [[t0 v0]|] eqn:Hl; [|done].
  destruct v0 as [| | | |[l'|]| | |]; try done.
  case_decide; [|done]. intros Ht. by rewrite (IH _ _ _ Ht).
Qed.

Lemma keeps_app cs c : keeps cs (cs ++ [c]).
Proof. intros l t v H. exists v. split; [|done]. by apply lookup_app_l_Some. Qed.

Lemma keeps_insert cs l t v x :
  cs !! l = Some (t, v) → (∀ t', t ≠ TPtr t') → keeps cs (<[l := (t, x)]> cs).
Proof.
  intros Hl Hnp l0 t0 v0 H0.
  destruct (decide (l0 = l)) as [->|Hne].
  - rewrite Hl in H0. injection H0 as <- <-. exists x. split.
    + apply list_lookup_insert_eq. by eapply lookup_lt_Some.
    + intros [t' ->]. by destruct (Hnp t').
  - exists v0. split; [|done]. by rewrite list_lookup_insert_ne.
Qed.

Lemma base_type_not_ptr t t' : base_type t ≠ TPtr t'.
Proof. induction t; simpl; congruence. Qed.

Lemma target_keeps t : ∀ cs cs' l lf,
  keeps cs cs' → target cs t l = Some lf →
  target cs' t l = Some lf ∧ path cs' t l = path cs t l.
Proof.
  induction t as [b|t IH|t _|n| | |]; intros cs cs' l lf Hk; simpl;
    try (destruct (cs !! l) as [[t0 v0]|] eqn:Hl; [|done];
         destruct (Hk _ _ _ Hl) as (v' & -> & _); done).
  destruct (cs !! l) as [[t0 v0]|] eqn:Hl; [|done].
  destruct v0 as [| | | |[l'|]| | |]; try done.
  case_decide as Ht; [|done]. subst t0. intros Htg.
  destruct (Hk _ _ _ Hl) as (v' & Hl' & Hv). rewrite Hl', Hv by eauto.
  rewrite decide_True by done.
  destruct (IH _ _ _ _ Hk Htg) as [-> ->]. done.
Qed.

Lemma target_lookup t : ∀ cs l lf,
  target cs t l = Some lf → ∃ x, cs !! lf = Some (base_type t, x).
Proof.
  induction t as [b|t IH|t _|n| | |]; intros cs l lf; simpl;
    try (destruct (cs !! l) as [[t0 v0]|] eqn:Hl; [|done]; case_decide; [|done];
         intros [= <-]; subst; eauto).
  destruct (cs !! l) as [[t0 v0]|] eqn:Hl; [|done].
  destruct v0 as [| | | |[l'|]| | |]; try done.
  case_decide; [|done]. eauto.
Qed.

(** Writing the terminal cell leaves the way to it as it was. *)
Lemma target_update t cs l lf x :
  target cs t l = Some lf →
  target (<[lf := (base_type t, x)]> cs) t l = Some lf
  ∧ path (<[lf := (base_type t, x)]> cs) t l = path cs t l.
Proof.
  intros Ht. destruct (target_lookup _ _ _ _ Ht) as [x0 Hx].
  apply target_keeps; [|done].
  eapply keeps_insert; [done|]. intros t'. apply base_type_not_ptr.
Qed.

Lemma store_insert_id cs ws l c :
  cs !! l = Some c → mkStore (<[l := c]> cs) ws = mkStore cs ws.
Proof. intros H. by rewrite list_insert_id. Qed.

(** ** [tempValue] and [assignThroughChain] on a handle *)

Lemma path_last t : ∀ cs ws l lf h,
  target cs t l = Some lf →
  Interface h (mkStore cs ws) =
    Done (AVal (TPtr t) (VPtr (Some l))) (mkStore cs ws) →
  ∃ p, last (h :: path cs t l) = Some p
     ∧ Interface p (mkStore cs ws) =
         Done (AVal (TPtr (base_type t)) (VPtr (Some lf))) (mkStore cs ws).
Proof.
  induction t as [b|t IH|t _|n| | |]; intros cs ws l lf h; simpl;
    try (destruct (cs !! l) as [[t0 v0]|]; [|done]; case_decide; [|done];
         intros [= <-] Hh; exists h; by split).
  destruct (cs !! l) as [[t0 v0]|] eqn:Hl; [|done].
  destruct v0 as [| | | |[l'|]| | |]; try done.
  case_decide as Ht0; [|done]. subst t0. intros Ht Hh.
  destruct (IH cs ws l' lf (RV (TPtr t) (At l)) Ht) as (p & Hp & Hi).
  { unfold Interface. mrun. by rewrite (load_At (mkStore cs ws) _ _ _ Hl). }
  exists p. split; [|done].
  rewrite <-Hp. by destruct (path cs t l').
Qed.

Lemma assign_loop_path t : ∀ cs ws l lf h rest,
  target cs t l = Some lf →
  Elem h (mkStore cs ws) = Done (RV t (At l)) (mkStore cs ws) →
  assign_loop (rev (h :: path cs t l) ++ rest) (RV (base_type t) (At lf))
    (mkStore cs ws) = assign_loop rest h (mkStore cs ws).
Proof.
  assert (Hstep : ∀ cs ws t l x h rest,
    cs !! l = Some (t, x) →
    Elem h (mkStore cs ws) = Done (RV t (At l)) (mkStore cs ws) →
    assign_loop (h :: rest) (RV t (At l)) (mkStore cs ws) =
      assign_loop rest h (mkStore cs ws)).
  { intros cs ws t0 l x h rest Hl Hh. cbn [assign_loop]. mrun. rewrite Hh. mrun.
    rewrite (SetValue_At_At (mkStore cs ws) _ _ _ _ Hl). mrun.
    unfold with_cells. simpl. by rewrite (store_insert_id _ _ _ _ Hl). }
  induction t as [b|t IH|t _|n| | |]; intros cs ws l lf h rest; simpl;
    try (destruct (cs !! l) as [[t0 v0]|] eqn:Hl; [|done]; case_decide; [|done];
         intros [= <-] Hh; subst t0; by eapply Hstep).
  destruct (cs !! l) as [[t0 v0]|] eqn:Hl; [|done].
  destruct v0 as [| | | |[l'|]| | |]; try done.
  case_decide as Ht0; [|done]. subst t0. intros Ht Hh.
  rewrite <-app_assoc. simpl.
  change (rev (path cs t l') ++ [RV (TPtr t) (At l)])
    with (rev (RV (TPtr t) (At l) :: path cs t l')).
  rewrite (IH cs ws l' lf (RV (TPtr t) (At l)) (h :: rest) Ht).
  - by eapply Hstep.
  - by rewrite (Elem_At (mkStore cs ws) _ _ _ Hl).
Qed.

Lemma tempValue_handle σ t l :
  handle_ok σ (AVal (TPtr t) (VPtr (Some l))) = true →
  tempValue (AVal (TPtr t) (VPtr (Some l))) σ =
    let '(cs2, lf, chain) := resolve t (cells σ) l in
    Done (inl (AVal (TPtr (base_type t)) (VPtr (Some lf)),
               RV (TPtr t) (Direct (VPtr (Some l))) :: chain))
         (with_cells σ cs2).
Proof.
  destruct σ as [cs ws]. unfold handle_ok. cbn [chain_ok cells].
  destruct (cs !! l) as [[t0 v0]|] eqn:Hl; [|done].
  intros [Ht Hok]%andb_prop. apply bool_decide_eq_true in Ht. subst t0.
  unfold tempValue. cbn [ValueOf KindOf type_kind ptr_depth type_depth].
  rewrite decide_False by (by intros []).
  cbn [tempValue_loop KindOf type_kind]. rewrite decide_True by done.
  mrun. cbn [IsNil Elem load]. mrun.
  rewrite (tempValue_loop_At t cs ws l v0 _ Hl Hok).
  pose proof (resolve_spec t cs l v0 Hl Hok) as Hspec.
  destruct (resolve t cs l) as [[cs2 lf] chain].
  destruct Hspec as (_ & Htg & -> & _).
  mrun. cbn [app].
  destruct (path_last t cs2 ws l lf (RV (TPtr t) (Direct (VPtr (Some l)))) Htg)
    as (p & -> & Hi); [done|].
  mrun. rewrite Hi. by mrun.
Qed.

Lemma assignThroughChain_noop cs ws t l lf :
  target cs t l = Some lf →
  assignThroughChain (AVal (TPtr (base_type t)) (VPtr (Some lf)))
    (RV (TPtr t) (Direct (VPtr (Some l))) :: path cs t l) (mkStore cs ws)
  = Done None (mkStore cs ws).
Proof.
  intros Ht. unfold assignThroughChain.
  rewrite decide_False by done.
  cbn [ValueOf KindOf type_kind]. rewrite decide_False by (by intros []).
  mrun. cbn [Elem load]. mrun.
  rewrite <-(app_nil_r (rev _)).
  rewrite (assign_loop_path t cs ws l lf _ [] Ht) by done.
  cbn [assign_loop]. by mrun.
Qed.

(** ** [Hydrate] on a destination of a built-in kind *)

Lemma Hydrate_basic E um σ t l b raw :
  handle_ok σ (AVal (TPtr t) (VPtr (Some l))) = true →
  base_type t = TBasic b →
  HydrateWith E um (AVal (TPtr t) (VPtr (Some l))) raw σ =
    let '(cs2, lf, _) := resolve t (cells σ) l in
    match parseBasic E b raw with
    | inr err =>
        Done (Some (wrap_error (AVal (TPtr t) (VPtr (Some l))) err))
             (with_cells σ cs2)
    | inl x => Done None (with_cells σ (<[lf := (TBasic b, x)]> cs2))
    end.
Proof.
  intros Hok Hb. unfold HydrateWith. mrun.
  rewrite (tempValue_handle _ _ _ Hok).
  destruct σ as [cs ws]. unfold handle_ok in Hok. cbn [chain_ok cells] in Hok.
  destruct (cs !! l) as [[t0 v0]|] eqn:Hl; [|done].
  apply andb_prop in Hok as [Ht Hok]. apply bool_decide_eq_true in Ht. subst t0.
  pose proof (resolve_spec t cs l v0 Hl Hok) as Hspec. cbn [cells].
  destruct (resolve t cs l) as [[cs2 lf] chain].
  destruct Hspec as (_ & Htg & -> & _).
  mrun. rewrite Hb. cbn [hydrateValue].
  destruct (parseBasic E b raw) as [x|err]; mrun; [|done].
  cbn [assign]. rewrite set_cell_run. mrun. unfold with_cells. cbn [cells wrappers].
  rewrite <-Hb.
  destruct (target_update t cs2 l lf x Htg) as [Htg' Hp'].
  rewrite <-Hp'.
  rewrite (assignThroughChain_noop _ ws t l lf Htg'). by mrun.
Qed.

Lemma terminal_target t : ∀ cs l lf x,
  target cs t l = Some lf → cs !! lf = Some (base_type t, x) →
  terminal cs (TPtr t) (VPtr (Some l)) = x.
Proof.
  induction t as [b|t IH|t _|n| | |]; intros cs l lf x; simpl;
    try (destruct (cs !! l) as [[t0 v0]|] eqn:Hl; [|done]; case_decide; [|done];
         intros [= <-]; rewrite Hl; congruence).
  destruct (cs !! l) as [[t0 v0]|] eqn:Hl; [|done].
  destruct v0 as [| | | |[l'|]| | |]; try done.
  case_decide; [|done]. intros Ht Hx.
  specialize (IH cs l' lf x Ht Hx). simpl in IH. done.
Qed.

Lemma target_ptr_inv cs t l lf :
  target cs (TPtr t) l = Some lf →
  ∃ l', cs !! l = Some (TPtr t, VPtr (Some l')) ∧ target cs t l' = Some lf.
Proof.
  simpl. destruct (cs !! l) as [[t0 v0]|] eqn:Hl; [|done].
  destruct v0 as [| | | |[l'|]| | |]; try done.
  case_decide; [|done]. subst. eauto.
Qed.

Lemma Hydrate_basic_ok E um σ t l b raw x :
  handle_ok σ (AVal (TPtr t) (VPtr (Some l))) = true →
  base_type t = TBasic b →
  parseBasic E b raw = inl x →
  ∃ cs' lf,
    HydrateWith E um (AVal (TPtr t) (VPtr (Some l))) raw σ
      = Done None (with_cells σ cs')
    ∧ target cs' t l = Some lf
    ∧ cs' !! lf = Some (TBasic b, x).
Proof.
  intros Hok Hb Hp. rewrite (Hydrate_basic _ _ _ _ _ _ _ Hok Hb), Hp.
  unfold handle_ok in Hok. cbn [chain_ok] in Hok.
  destruct (cells σ !! l) as [[t0 v0]|] eqn:Hl; [|done].
  apply andb_prop in Hok as [Ht Hok]. apply bool_decide_eq_true in Ht. subst t0.
  pose proof (resolve_spec t _ l v0 Hl Hok) as Hspec.
  destruct (resolve t (cells σ) l) as [[cs2 lf] chain].
  destruct Hspec as (_ & Htg & _ & Hx).
  exists (<[lf := (TBasic b, x)]> cs2), lf. split; [done|].
  rewrite <-Hb. split; [by apply target_update|].
  apply list_lookup_insert_eq. by eapply lookup_lt_Some.
Qed.

Lemma Hydrate_unsupported E um σ t l raw :
  handle_ok σ (AVal (TPtr t) (VPtr (Some l))) = true →
  unsupported E (base_type t) = true →
  HydrateWith E um (AVal (TPtr t) (VPtr (Some l))) raw σ =
    let '(cs2, _, _) := resolve t (cells σ) l in
    Done (Some (wrap_error (AVal (TPtr t) (VPtr (Some l))) ErrTypeUnsupported))
         (with_cells σ cs2).
Proof.
  intros Hok Hu. unfold HydrateWith. mrun.
  rewrite (tempValue_handle _ _ _ Hok).
  destruct (resolve t (cells σ) l) as [[cs2 lf] chain]. mrun.
  destruct (base_type t) as [b|t'|t'|n| | |] eqn:Hb; try done;
    cbn [hydrateValue]; mrun; try done.
  simpl in Hu. apply andb_prop in Hu as [[[He Ht]%andb_prop Hs]%andb_prop Ho].
  apply negb_true_iff in He. apply bool_decide_eq_true in Ht, Hs, Ho.
  rewrite He, Ht, Hs, Ho. by mrun.
Qed.

Lemma Hydrate_not_pointer E um val raw σ :
  KindOf (ValueOf val) ≠ Pointer →
  HydrateWith E um val raw σ = Done (Some (wrap_error val ErrTypeUnsupported)) σ.
Proof.
  intros Hk. unfold HydrateWith, tempValue. rewrite decide_True by done. by mrun.
Qed.

(** A handle that is itself a nil pointer cannot be written through:
    [current.Set] in [tempValue] panics on the value that is not addressable. *)
Lemma Hydrate_nil_handle_panics E um t raw σ :
  HydrateWith E um (AVal (TPtr t) (VPtr None)) raw σ
    = Panic "reflect: reflect.Value.Set using unaddressable value".
Proof. reflexivity. Qed.

(** ** [Hydrate] on values that are no [*Slice]

    The chunk loop hydrates its items with [HydrateItem]; on every value
    that is not a [*Slice] this is [Hydrate]. *)

Lemma Elem_plain v σ next σ' :
  plain_value v = true → Elem v σ = Done next σ' → plain_value next = true.
Proof.
  destruct v as [|[] p| |]; try done. simpl. rewrite bind_run. intros _.
  destruct (load p σ) as [x σ1|]; [|done].
  destruct x as [| | | |[l|]| | |]; by intros [= <- _].
Qed.

Lemma tempValue_loop_plain n : ∀ current acc σ res chain σ',
  plain_value current = true →
  Forall (λ v, plain_value v = true) acc →
  tempValue_loop n current acc σ = Done (res, chain) σ' →
  Forall (λ v, plain_value v = true) chain.
Proof.
  induction n as [|n IH]; intros current acc σ res chain σ' Hc Hacc; simpl.
  { by intros [= _ <- _]. }
  case_decide; [|by intros [= _ <- _]].
  rewrite bind_run. destruct (IsNil current σ) as [isnil σ1|]; [|done].
  rewrite bind_run.
  match goal with |- context [match ?m σ1 with _ => _ end] =>
    destruct (m σ1) as [[] σ2|]; [|done] end.
  rewrite bind_run. destruct (Elem current σ2) as [next σ3|] eqn:He; [|done].
  apply IH; [by eapply Elem_plain|].
  apply Forall_app. split; [done|]. by apply Forall_singleton.
Qed.

Lemma tempValue_AVal t v σ prepared chain σ' :
  tempValue (AVal t v) σ = Done (inl (prepared, chain)) σ' →
  ∃ t' v', prepared = AVal t' v'.
Proof.
  unfold tempValue. case_decide; [done|]. rewrite bind_run.
  destruct (tempValue_loop _ _ _ σ) as [[cur ch] σ1|] eqn:Hloop; [|done].
  apply tempValue_loop_plain in Hloop; [|done|by apply Forall_nil].
  destruct (last ch) as [p|] eqn:Hlast; [|done].
  apply last_Some_elem_of in Hlast.
  rewrite Forall_forall in Hloop. specialize (Hloop p Hlast).
  destruct p as [|t' p'| |]; try done.
  cbn [Interface]. rewrite !bind_run.
  destruct (load p' σ1) as [x σ2|]; [|done]. rewrite !ret_run.
  intros [= <- _ _]. eauto.
Qed.

Lemma hydrateValue_AVal E um1 um2 t v raw :
  hydrateValue E um1 (AVal t v) raw = hydrateValue E um2 (AVal t v) raw.
Proof. done. Qed.

Lemma Hydrate_AVal E t v raw σ :
  Hydrate E (AVal t v) raw σ = HydrateItem E (AVal t v) raw σ.
Proof.
  unfold Hydrate, HydrateItem, HydrateWith. rewrite !bind_run.
  destruct (tempValue (AVal t v) σ) as [[[prepared chain]|e] σ1|] eqn:Ht;
    [|done..].
  apply tempValue_AVal in Ht as (t' & v' & ->).
  by rewrite (hydrateValue_AVal E _ (λ _ _, mret (Some ErrTypeUnsupported))).
Qed.

(** ** Claims about the indirection resolver *)

(** C8: a destination [***int] that is nil in all three layers, passed by
    its address and hydrated with "42", ends with the three layers allocated
    and the innermost value 42; the call returns no error. *)
Theorem C8_three_nil_layers_hydrate_42 (E : Env) (σ : store) (l : loc) :
  cells σ !! l = Some (TPtr (TPtr (TPtr (TBasic BInt))), VPtr None) →
  ∃ σ' l1 l2 l3,
    Hydrate E (AVal (TPtr (TPtr (TPtr (TPtr (TBasic BInt))))) (VPtr (Some l)))
      "42" σ = Done None σ'
    ∧ cells σ' !! l = Some (TPtr (TPtr (TPtr (TBasic BInt))), VPtr (Some l1))
    ∧ cells σ' !! l1 = Some (TPtr (TPtr (TBasic BInt)), VPtr (Some l2))
    ∧ cells σ' !! l2 = Some (TPtr (TBasic BInt), VPtr (Some l3))
    ∧ cells σ' !! l3 = Some (TBasic BInt, VInt 42).
Proof.
  intros Hl.
  destruct (Hydrate_basic_ok E (UnmarshalText E) σ
              (TPtr (TPtr (TPtr (TBasic BInt)))) l BInt "42" (VInt 42))
    as (cs' & lf & Hrun & Htg & Hx).
  - unfold handle_ok. cbn [chain_ok]. rewrite Hl. by rewrite bool_decide_eq_true_2.
  - done.
  - unfold parseBasic. by destruct (env_arch E).
  - apply target_ptr_inv in Htg as (l1 & H1 & Htg).
    apply target_ptr_inv in Htg as (l2 & H2 & Htg).
    apply target_ptr_inv in Htg as (l3 & H3 & Htg).
    simpl in Htg. destruct (cs' !! l3) as [[t0 v0]|]; [|done].
    case_decide; [|done]. injection Htg as ->.
    exists (with_cells σ cs'), l1, l2, lf. by repeat split.
Qed.

Lemma C8_three_nil_layers_witness :
  ∃ σ' l1 l2 l3,
    Hydrate (plainEnv Arch64)
      (AVal (TPtr (TPtr (TPtr (TPtr (TBasic BInt))))) (VPtr (Some 0)))
      "42" (mkStore [(TPtr (TPtr (TPtr (TBasic BInt))), VPtr None)] []) = Done None σ'
    ∧ cells σ' !! 0 = Some (TPtr (TPtr (TPtr (TBasic BInt))), VPtr (Some l1))
    ∧ cells σ' !! l1 = Some (TPtr (TPtr (TBasic BInt)), VPtr (Some l2))
    ∧ cells σ' !! l2 = Some (TPtr (TBasic BInt), VPtr (Some l3))
    ∧ cells σ' !! l3 = Some (TBasic BInt, VInt 42).
Proof.
  apply (C8_three_nil_layers_hydrate_42 (plainEnv Arch64)
           (mkStore [(TPtr (TPtr (TPtr (TBasic BInt))), VPtr None)] []) 0).
  reflexivity.
Defined.




(** ** Claims about the conversion dispatcher *)




(** C9: every error that [Hydrate] returns, whichever step produced it, is
    an [Error] around a [HydrateError] that holds the destination as it was
    passed, so that its type can be named; unwrapping twice gives the
    cause. *)
Theorem C9_uniform_error_wrapping (E : Env) (val : any) (raw : string)
    (σ σ' : store) (err : error) :
  Hydrate E val raw σ = Done (Some err) σ' →
  ∃ cause,
    err = NewError (NewHydrateError cause val)
    ∧ (Unwrap err ≫= Unwrap) = Some cause
    ∧ hydrate_error_type err = Some (type_identity val).
Proof.
  unfold Hydrate, HydrateWith. rewrite bind_run.
  destruct (tempValue val σ) as [[[tmpVal pointerChain]|e] σ1|]; [| |done].
  - rewrite bind_run.
    destruct (hydrateValue E (UnmarshalText E) tmpVal raw σ1) as [[e|] σ2|];
      [| |done].
    + rewrite ret_run. intros [= <- _]. by exists e.
    + rewrite bind_run.
      destruct (assignThroughChain tmpVal pointerChain σ2) as [[e|] σ3|];
        [| |done]; rewrite ret_run; [|done].
      intros [= <- _]. by exists e.
  - rewrite ret_run. intros [= <- _]. by exists e.
Qed.

Lemma C9_uniform_error_wrapping_witness :
  ∃ cause,
    wrap_error (AVal (TPtr (TBasic BBool)) (VPtr (Some 0))) (ErrSyntax "ParseBool" "notabool")
      = NewError (NewHydrateError cause (AVal (TPtr (TBasic BBool)) (VPtr (Some 0))))
    ∧ (Unwrap (wrap_error (AVal (TPtr (TBasic BBool)) (VPtr (Some 0)))
                 (ErrSyntax "ParseBool" "notabool")) ≫= Unwrap) = Some cause
    ∧ hydrate_error_type
        (wrap_error (AVal (TPtr (TBasic BBool)) (VPtr (Some 0)))
           (ErrSyntax "ParseBool" "notabool"))
      = Some (type_identity (AVal (TPtr (TBasic BBool)) (VPtr (Some 0)))).
Proof.
  apply (C9_uniform_error_wrapping (plainEnv Arch64)
           (AVal (TPtr (TBasic BBool)) (VPtr (Some 0))) "notabool"
           (mkStore [(TBasic BBool, VBool false)] [])
           (mkStore [(TBasic BBool, VBool false)] [])).
  reflexivity.
Defined.

(** ** Computations that only read *)

Lemma pure_ret {A} (a : A) : pure (mret a : M A).
Proof. by intros σ a' σ' [= _ <-]. Qed.

Lemma pure_panic {A} msg : pure (panic msg : M A).
Proof. by intros σ a σ'. Qed.

Lemma pure_bind {A B} (m : M A) (f : A → M B) :
  pure m → (∀ a, pure (f a)) → pure (m ≫= f).
Proof.
  intros Hm Hf σ b σ'. rewrite bind_run.
  destruct (m σ) as [a σ1|] eqn:Hrun; [|done].
  intros Hb. apply Hf in Hb. apply Hm in Hrun. congruence.
Qed.

Lemma pure_get_store : pure get_store.
Proof. by intros σ a σ' [= _ <-]. Qed.

Lemma pure_load p : pure (load p).
Proof.
  destruct p as [v|l]; [apply pure_ret|].
  apply pure_bind; [apply pure_get_store|]. intros σ.
  destruct (cells σ !! l) as [[t v]|]; [apply pure_ret|apply pure_panic].
Qed.

Lemma pure_get_wrapper r : pure (get_wrapper r).
Proof.
  apply pure_bind; [apply pure_get_store|]. intros σ.
  destruct (wrappers σ !! r); [apply pure_ret|apply pure_panic].
Qed.

Lemma pure_IsNil v : pure (IsNil v).
Proof.
  destruct v as [|[] p| |]; try apply pure_panic; try apply pure_ret;
    (apply pure_bind; [apply pure_load|]);
    intros [| | | |[]|[]| |]; apply pure_ret.
Qed.

Lemma pure_Elem v : pure (Elem v).
Proof.
  destruct v as [|[] p| |]; try apply pure_panic; try apply pure_ret.
  apply pure_bind; [apply pure_load|].
  intros [| | | |[]| | |]; apply pure_ret.
Qed.

Lemma pure_marshal_loop n : ∀ v, pure (marshal_loop n v).
Proof.
  induction n as [|n IH]; intros v; simpl; [apply pure_ret|].
  case_decide; [|apply pure_ret].
  apply pure_bind; [apply pure_IsNil|]. intros [|]; [apply pure_ret|].
  apply pure_bind; [apply pure_Elem|]. done.
Qed.

Lemma pure_Sprint E t v : pure (Sprint E t v).
Proof.
  destruct t; try apply pure_ret;
    (apply pure_bind; [apply pure_get_store|]); intros σ; apply pure_ret.
Qed.

Lemma pure_sprint_elems E te elems : pure (sprint_elems E te elems).
Proof.
  induction elems as [|x rest IH]; simpl; [apply pure_ret|].
  apply pure_bind; [apply pure_Sprint|]. intros o.
  apply pure_bind; [done|]. intros out. apply pure_ret.
Qed.

Lemma pure_MarshalText E r : pure (MarshalText E r).
Proof.
  apply pure_bind; [apply pure_get_wrapper|]. intros s.
  apply pure_bind; [apply pure_marshal_loop|].
  intros [[|[] p| |]|]; try apply pure_ret.
  apply pure_bind; [apply pure_load|].
  intros [| | | | |elems| |]; try apply pure_panic.
  apply pure_bind; [apply pure_sprint_elems|]. intros out. apply pure_ret.
Qed.

Lemma marshal_loop_nil t : ∀ σ p v,
  load p σ = Done v σ →
  has_nil_layer (cells σ) t v = true →
  marshal_loop (type_depth t) (RV t p) σ = Done None σ.
Proof.
  induction t as [b|t IH|t _|n| | |]; intros σ p v Hp; simpl;
    try (by destruct v).
  intros Hnil. mrun. rewrite Hp.
  destruct v as [| | | |[l|]| | |]; try done; mrun; try done.
  rewrite Hp. mrun.
  destruct (cells σ !! l) as [[t0 v0]|] eqn:Hl; [|done].
  apply (IH σ (At l) v0); [|done]. by apply (load_At _ _ t0).
Qed.

(** ** Claims about the sequence accumulator: empty input and rendering *)

(** C4: on a sequence destination the empty text changes nothing, neither
    through [UnmarshalText] nor through [Hydrate]: the contents are not
    cleared, [started] is not set and no cell is allocated. *)
Theorem C4_empty_text_is_noop (E : Env) (σ : store) (r : nat) (s : Slice) :
  wrappers σ !! r = Some s →
  UnmarshalText E r "" σ = Done None σ
  ∧ Hydrate E (ASlice r) "" σ = Done None σ.
Proof.
  intros Hr. split; [done|].
  unfold Hydrate, HydrateWith, tempValue. cbn [ValueOf KindOf ptr_depth].
  rewrite decide_False by (by intros []).
  cbn [tempValue_loop KindOf]. rewrite decide_True by done.
  cbn [IsNil Elem]. mrun. cbn [app last Interface]. mrun.
  cbn [hydrateValue].
  change (UnmarshalText E r "" σ) with (Done (None : option error) σ). mrun.
  unfold assignThroughChain. cbn [length ValueOf KindOf].
  rewrite decide_False by done. rewrite decide_False by (by intros []).
  cbn [Elem rev app assign_loop]. mrun. cbn [SetValue]. mrun.
  rewrite (get_wrapper_run _ _ _ Hr). mrun.
  unfold set_wrapper. mrun. unfold get_store, put_store.
  rewrite (list_insert_id _ _ _ Hr). by destruct σ.
Qed.

Lemma C4_empty_text_witness :
  UnmarshalText (plainEnv Arch64) 0 ""
    (mkStore [(TSlice (TBasic BInt), VSlice (Some [VInt 7]))]
             [MakeSlice (AVal (TPtr (TSlice (TBasic BInt))) (VPtr (Some 0)))])
  = Done None
      (mkStore [(TSlice (TBasic BInt), VSlice (Some [VInt 7]))]
               [MakeSlice (AVal (TPtr (TSlice (TBasic BInt))) (VPtr (Some 0)))])
  ∧ Hydrate (plainEnv Arch64) (ASlice 0) ""
      (mkStore [(TSlice (TBasic BInt), VSlice (Some [VInt 7]))]
               [MakeSlice (AVal (TPtr (TSlice (TBasic BInt))) (VPtr (Some 0)))])
    = Done None
        (mkStore [(TSlice (TBasic BInt), VSlice (Some [VInt 7]))]
                 [MakeSlice (AVal (TPtr (TSlice (TBasic BInt))) (VPtr (Some 0)))]).
Proof.
  apply (C4_empty_text_is_noop (plainEnv Arch64)
           (mkStore [(TSlice (TBasic BInt), VSlice (Some [VInt 7]))]
                    [MakeSlice (AVal (TPtr (TSlice (TBasic BInt))) (VPtr (Some 0)))])
           0 (MakeSlice (AVal (TPtr (TSlice (TBasic BInt))) (VPtr (Some 0))))).
  reflexivity.
Defined.

(** C10: when a layer of the chain of a sequence destination is nil,
    [MarshalText] returns nil text and no error; and whatever it returns,
    [MarshalText] leaves the store as it found it. *)
Theorem C10_marshal_nil_chain (E : Env) (σ : store) (r : nat) (s : Slice)
    (t : type) (v : value) :
  wrappers σ !! r = Some s →
  ptrValue s = AVal t v →
  has_nil_layer (cells σ) t v = true →
  MarshalText E r σ = Done (None, None) σ
  ∧ ∀ σ0 r0 res σ', MarshalText E r0 σ0 = Done res σ' → σ' = σ0.
Proof.
  intros Hr Hp Hnil. split.
  - unfold MarshalText. mrun. rewrite (get_wrapper_run _ _ _ Hr). mrun.
    rewrite Hp. cbn [ValueOf ptr_depth].
    rewrite (marshal_loop_nil t σ (Direct v) v); [by mrun|done|done].
  - intros σ0 r0 res σ'. apply pure_MarshalText.
Qed.

Lemma C10_marshal_nil_chain_witness :
  MarshalText (plainEnv Arch64) 0
    (mkStore [(TPtr (TSlice (TBasic BInt)), VPtr None)]
             [MakeSlice (AVal (TPtr (TPtr (TSlice (TBasic BInt)))) (VPtr (Some 0)))])
  = Done (None, None)
      (mkStore [(TPtr (TSlice (TBasic BInt)), VPtr None)]
               [MakeSlice (AVal (TPtr (TPtr (TSlice (TBasic BInt)))) (VPtr (Some 0)))])
  ∧ ∀ σ0 r0 res σ', MarshalText (plainEnv Arch64) r0 σ0 = Done res σ' → σ' = σ0.
Proof.
  apply (C10_marshal_nil_chain (plainEnv Arch64)
           (mkStore [(TPtr (TSlice (TBasic BInt)), VPtr None)]
                    [MakeSlice (AVal (TPtr (TPtr (TSlice (TBasic BInt)))) (VPtr (Some 0)))])
           0 (MakeSlice (AVal (TPtr (TPtr (TSlice (TBasic BInt)))) (VPtr (Some 0))))
           (TPtr (TPtr (TSlice (TBasic BInt)))) (VPtr (Some 0)));
    reflexivity.
Defined.

Lemma target_chain_ok t : ∀ cs l lf x,
  target cs t l = Some lf →
  cs !! lf = Some (base_type t, x) →
  has_shape (base_type t) x = true →
  chain_ok cs (TPtr t) (VPtr (Some l)) = true.
Proof.
  induction t as [b|t IH|t _|n| | |]; intros cs l lf x; cbn [chain_ok target];
    try (destruct (cs !! l) as [[t0 v0]|] eqn:Hl; [|done]; case_decide; [|done];
         intros [= <-]; subst t0; rewrite Hl; intros [= <-] Hs;
         by rewrite bool_decide_eq_true_2).
  destruct (cs !! l) as [[t0 v0]|] eqn:Hl; [|done].
  destruct v0 as [| | | |[l'|]| | |]; try done.
  case_decide; [|done]. subst t0. intros Ht Hx Hs.
  rewrite bool_decide_eq_true_2 by done.
  by apply (IH cs l' lf x).
Qed.

(** ** The loops of [slice.go] *)

Lemma unmarshal_loop_At t : ∀ cs ws l v,
  cs !! l = Some (t, v) →
  chain_ok cs t v = true →
  unmarshal_loop (type_depth t) (RV t (At l)) (mkStore cs ws) =
    let '(cs2, lf, _) := resolve t cs l in
    Done (RV (base_type t) (At lf)) (mkStore cs2 ws).
Proof.
  induction t as [b|t IH|t _|n| | |]; intros cs ws l v Hl Hok; try done.
  cbn [type_depth unmarshal_loop resolve base_type].
  rewrite decide_True by done.
  rewrite bind_run, (IsNil_At (mkStore cs ws) _ _ _ Hl).
  rewrite Hl.
  destruct v as [| | | |[l'|]| | |]; try done.
  - simpl in Hok. destruct (cs !! l') as [[t'' v']|] eqn:Hl'; [|done].
    apply andb_prop in Hok as [Ht Hok]. apply bool_decide_eq_true in Ht. subst t''.
    mrun. rewrite (Elem_At (mkStore cs ws) _ _ _ Hl). mrun.
    rewrite (IH cs ws l' v' Hl' Hok).
    by destruct (resolve t cs l') as [[cs2 lf] chain].
  - simpl TypeElem. mrun. rewrite New_run. mrun.
    rewrite SetValue_At_Direct. mrun. unfold with_cells; simpl cells; simpl wrappers.
    assert (Hlt : (l < length cs)%nat) by (by eapply lookup_lt_Some).
    set (cs1 := <[l:=(TPtr t, VPtr (Some (length cs)))]> (cs ++ [(t, zero t)])).
    assert (Hl1 : cs1 !! l = Some (TPtr t, VPtr (Some (length cs)))).
    { unfold cs1. apply list_lookup_insert_eq. rewrite length_app. simpl. lia. }
    assert (Hn : cs1 !! length cs = Some (t, zero t)).
    { unfold cs1. rewrite list_lookup_insert_ne by lia.
      rewrite lookup_app_r by lia. by rewrite Nat.sub_diag. }
    rewrite (Elem_At (mkStore cs1 ws) _ _ _ Hl1). mrun.
    rewrite (IH cs1 ws (length cs) (zero t) Hn (chain_ok_zero _ _)).
    by destruct (resolve t cs1 (length cs)) as [[cs2 lf] chain].
Qed.

Lemma pointerLevels_loop_target t : ∀ cs ws l lf k,
  target cs t l = Some lf →
  pointerLevels_loop (type_depth t) (RV t (At l)) k (mkStore cs ws)
    = Done (k + type_depth t) (mkStore cs ws).
Proof.
  induction t as [b|t IH|t _|n| | |]; intros cs ws l lf k Ht;
    try (cbn [pointerLevels_loop type_depth]; rewrite ret_run; f_equal; lia).
  apply target_ptr_inv in Ht as (l' & Hl & Ht).
  cbn [pointerLevels_loop type_depth KindOf type_kind].
  rewrite decide_True by done. mrun.
  rewrite (Elem_At (mkStore cs ws) _ _ _ Hl). mrun.
  rewrite (IH cs ws l' lf (S k) Ht). f_equal. lia.
Qed.

Lemma Elem_times_target t : ∀ cs ws l lf h,
  target cs t l = Some lf →
  Elem h (mkStore cs ws) = Done (RV t (At l)) (mkStore cs ws) →
  (Elem_times (type_depth t) h ≫= Elem) (mkStore cs ws)
    = Done (RV (base_type t) (At lf)) (mkStore cs ws).
Proof.
  induction t as [b|t IH|t _|n| | |]; intros cs ws l lf h Ht Hh;
    try (simpl in Ht; destruct (cs !! l) as [[t0 v0]|]; [|done];
         case_decide; [|done]; injection Ht as <-;
         cbn [type_depth Elem_times base_type]; mrun; by rewrite Hh).
  apply target_ptr_inv in Ht as (l' & Hl & Ht).
  cbn [type_depth Elem_times base_type]. mrun. rewrite Hh. mrun.
  rewrite <-(IH cs ws l' lf (RV (TPtr t) (At l)) Ht); [by mrun|].
  by rewrite (Elem_At (mkStore cs ws) _ _ _ Hl).
Qed.

Lemma setValue_run cs ws r s t l lf te x :
  ws !! r = Some s →
  ptrValue s = AVal (TPtr t) (VPtr (Some l)) →
  target cs t l = Some lf →
  base_type t = TSlice te →
  setValue r (RV (TSlice te) (Direct x)) (mkStore cs ws)
    = Done tt (mkStore (<[lf := (TSlice te, x)]> cs) ws).
Proof.
  intros Hr Hp Ht Hb. unfold setValue, pointerLevels. mrun.
  rewrite (get_wrapper_run (mkStore cs ws) _ _ Hr). mrun.
  rewrite (get_wrapper_run (mkStore cs ws) _ _ Hr). mrun.
  rewrite Hp. cbn [ValueOf ptr_depth type_depth pointerLevels_loop KindOf type_kind].
  rewrite decide_True by done. mrun. cbn [Elem load]. mrun.
  rewrite (pointerLevels_loop_target t cs ws l lf 1 Ht). mrun.
  replace (1 + type_depth t - 1) with (type_depth t) by lia.
  pose proof (Elem_times_target t cs ws l lf
                (RV (TPtr t) (Direct (VPtr (Some l)))) Ht eq_refl) as He.
  rewrite bind_run in He.
  destruct (Elem_times (type_depth t) _ _) as [v1 σ1|]; [|done].
  mrun. rewrite He, Hb. by rewrite SetValue_At_Direct.
Qed.

Lemma HydrateItem_basic E cs ws b chunk :
  HydrateItem E (AVal (TPtr (TBasic b)) (VPtr (Some (length cs)))) chunk
    (mkStore (cs ++ [(TBasic b, zero (TBasic b))]) ws) =
  match parseBasic E b chunk with
  | inr err =>
      Done (Some (wrap_error (AVal (TPtr (TBasic b)) (VPtr (Some (length cs)))) err))
           (mkStore (cs ++ [(TBasic b, zero (TBasic b))]) ws)
  | inl x => Done None (mkStore (cs ++ [(TBasic b, x)]) ws)
  end.
Proof.
  unfold HydrateItem.
  rewrite (Hydrate_basic E _ _ (TBasic b) (length cs) b chunk); [| |done].
  - cbn [resolve cells with_cells wrappers].
    destruct (parseBasic E b chunk) as [x|err]; [|done].
    do 2 f_equal.
    replace (length cs) with (length cs + 0)%nat at 1 by lia.
    by rewrite insert_app_r.
  - unfold handle_ok. cbn [chain_ok cells].
    rewrite lookup_app_r by lia. rewrite Nat.sub_diag. cbn [lookup list_lookup].
    rewrite bool_decide_eq_true_2 by done. by destruct b.
Qed.

Lemma chunk_loop_basic E ws r s t l lf b :
  ws !! r = Some s →
  ptrValue s = AVal (TPtr t) (VPtr (Some l)) →
  base_type t = TSlice (TBasic b) →
  ∀ chunks cs o,
    target cs t l = Some lf →
    cs !! lf = Some (TSlice (TBasic b), VSlice o) →
    ∃ cs' o' res,
      chunk_loop (HydrateItem E) r (RV (TSlice (TBasic b)) (At lf)) (TBasic b)
        chunks (mkStore cs ws) = Done res (mkStore cs' ws)
      ∧ target cs' t l = Some lf
      ∧ cs' !! lf = Some (TSlice (TBasic b), VSlice o')
      ∧ slice_elems o' = slice_elems o ++ (convert_chunks E b chunks).1
      ∧ chunk_failure (TBasic b) (convert_chunks E b chunks).2 res.
Proof.
  intros Hr Hp Hb. induction chunks as [|chunk rest IH]; intros cs o Ht Hlf.
  { exists cs, o, None. simpl. by rewrite app_nil_r. }
  cbn [chunk_loop convert_chunks]. case_decide as Hlen; [by apply IH|].
  mrun. rewrite New_run. mrun. unfold with_cells.
  cbn [Interface load cells wrappers]. mrun.
  rewrite HydrateItem_basic.
  assert (Hk : keeps cs (cs ++ [(TBasic b, zero (TBasic b))])) by apply keeps_app.
  destruct (parseBasic E b chunk) as [x|err].
  - (* the chunk converts: the element is appended *)
    mrun. cbn [Elem load]. mrun.
    set (cs1 := cs ++ [(TBasic b, x)]).
    assert (Hk1 : keeps cs cs1) by apply keeps_app.
    assert (Hlf1 : cs1 !! lf = Some (TSlice (TBasic b), VSlice o))
      by (by apply lookup_app_l_Some).
    assert (Hli : cs1 !! length cs = Some (TBasic b, x)).
    { unfold cs1. rewrite lookup_app_r by lia. by rewrite Nat.sub_diag. }
    destruct (target_keeps t _ _ l lf Hk1 Ht) as [Ht1 _].
    unfold Append. rewrite decide_True by done. mrun.
    rewrite (load_At (mkStore cs1 ws) _ _ _ Hlf1). mrun.
    rewrite (load_At (mkStore cs1 ws) _ _ _ Hli). mrun.
    rewrite (setValue_run cs1 ws r s t l lf (TBasic b) _ Hr Hp Ht1 Hb). mrun.
    set (o1 := Some (slice_elems o ++ [x])).
    destruct (IH (<[lf := (TSlice (TBasic b), VSlice o1)]> cs1) o1)
      as (cs' & o' & res & Hrun & Ht' & Hlf' & Helems & Hfail).
    { rewrite <-Hb. apply target_update. done. }
    { apply list_lookup_insert_eq. by eapply lookup_lt_Some. }
    exists cs', o', res. split; [done|]. split; [done|]. split; [done|].
    destruct (convert_chunks E b rest) as [xs e]. simpl in *.
    split; [|done]. by rewrite Helems, <-app_assoc.
  - (* the chunk fails: the loop returns at once *)
    mrun.
    destruct (target_keeps t _ _ l lf Hk Ht) as [Ht1 _].
    eexists (cs ++ [(TBasic b, zero (TBasic b))]), o, _.
    split; [done|]. split; [done|].
    split; [by apply lookup_app_l_Some|].
    simpl. split; [by rewrite app_nil_r|]. by exists (length cs).
Qed.

(** [UnmarshalText] on a sequence of elements of a built-in kind, for text
    that is not empty: the store that results, described by what can be
    read from it. *)
Lemma UnmarshalText_basic E σ r s t l b text :
  wrappers σ !! r = Some s →
  ptrValue s = AVal (TPtr t) (VPtr (Some l)) →
  handle_ok σ (ptrValue s) = true →
  base_type t = TSlice (TBasic b) →
  String.length text ≠ 0 →
  ∃ cs' res,
    UnmarshalText E r text σ
      = Done res (mkStore cs' (<[r := set_started s true]> (wrappers σ)))
    ∧ contents (mkStore cs' (<[r := set_started s true]> (wrappers σ))) (ptrValue s)
      = prior_contents σ s ++ (convert_chunks E b (Split text (Separator s))).1
    ∧ chunk_failure (TBasic b) (convert_chunks E b (Split text (Separator s))).2 res
    ∧ handle_ok (mkStore cs' (<[r := set_started s true]> (wrappers σ))) (ptrValue s)
      = true.
Proof.
  intros Hr Hp Hok Hb Hlen. unfold prior_contents.
  destruct σ as [cs ws]. cbn [wrappers cells] in *.
  rewrite Hp in Hok. unfold handle_ok in Hok. cbn [chain_ok cells] in Hok.
  destruct (cs !! l) as [[t0 v0]|] eqn:Hl; [|done].
  apply andb_prop in Hok as [Ht0 Hok]. apply bool_decide_eq_true in Ht0. subst t0.
  unfold UnmarshalText, UnmarshalTextWith. rewrite decide_False by done.
  mrun. rewrite (get_wrapper_run (mkStore cs ws) _ _ Hr). mrun.
  rewrite Hp. cbn [ValueOf ptr_depth type_depth unmarshal_loop KindOf type_kind].
  rewrite decide_True by done. mrun. cbn [IsNil Elem load]. mrun.
  rewrite (unmarshal_loop_At t cs ws l v0 Hl Hok).
  pose proof (resolve_spec t cs l v0 Hl Hok) as Hspec.
  pose proof (terminal_shape t cs v0 Hok) as Hshape.
  destruct (resolve t cs l) as [[cs2 lf] chain].
  destruct Hspec as (Hg & Htg & _ & Hx).
  rewrite Hb in Hx, Hshape.
  destruct (terminal cs t v0) as [| | | | |o0| |] eqn:Hterm; try done.
  cbn [KindOf]. rewrite Hb. cbn [type_kind].
  rewrite decide_False by (by intros []).
  assert (Hr' : <[r := set_started s true]> ws !! r = Some (set_started s true)).
  { apply list_lookup_insert_eq. by eapply lookup_lt_Some. }
  assert (Hold : contents (mkStore cs ws) (AVal (TPtr t) (VPtr (Some l)))
                 = slice_elems o0).
  { unfold contents. cbn [terminal cells]. by rewrite Hl, Hterm. }
  assert (Hsep : (if negb (SplitEach s) then Separator s else Separator s)
                 = Separator s) by (by destruct (SplitEach s)).
  rewrite Hsep, Hold.
  assert (Hfin : ∀ cs3 o3,
    target cs3 t l = Some lf →
    cs3 !! lf = Some (TSlice (TBasic b), VSlice o3) →
    ∃ cs' res,
      (get_wrapper r ≫= λ s', set_wrapper r (set_started s' true) ≫= λ _,
         TypeElem (RV (TSlice (TBasic b)) (At lf)) ≫= λ valType,
           chunk_loop (HydrateItem E) r (RV (TSlice (TBasic b)) (At lf)) valType
             (Split text (Separator s))) (mkStore cs3 ws)
        = Done res (mkStore cs' (<[r := set_started s true]> ws))
      ∧ contents (mkStore cs' (<[r := set_started s true]> ws))
          (AVal (TPtr t) (VPtr (Some l)))
        = slice_elems o3 ++ (convert_chunks E b (Split text (Separator s))).1
      ∧ chunk_failure (TBasic b)
          (convert_chunks E b (Split text (Separator s))).2 res
      ∧ handle_ok (mkStore cs' (<[r := set_started s true]> ws))
          (AVal (TPtr t) (VPtr (Some l))) = true).
  { intros cs3 o3 Ht3 Hlf3. mrun.
    rewrite (get_wrapper_run (mkStore cs3 ws) _ _ Hr). mrun.
    unfold set_wrapper. mrun. unfold get_store, put_store. cbn [cells wrappers].
    cbn [TypeElem]. mrun.
    destruct (chunk_loop_basic E (<[r := set_started s true]> ws) r
                (set_started s true) t l lf b Hr' Hp Hb
                (Split text (Separator s)) cs3 o3 Ht3 Hlf3)
      as (cs' & o' & res & Hrun & Ht' & Hlf' & Helems & Hfail).
    exists cs', res. split; [done|]. rewrite <-Hb in Hlf'. split; [|split; [done|]].
    - unfold contents. cbn [cells].
      by rewrite (terminal_target t cs' l lf _ Ht' Hlf').
    - unfold handle_ok. cbn [cells].
      apply (target_chain_ok t cs' l lf _ Ht' Hlf'). by rewrite Hb. }
  destruct (negb (started s) || NonAccum s) eqn:Hreset.
  - (* the contents are replaced by an empty sequence *)
    mrun. cbn [TypeOf]. mrun. unfold MakeSlice00.
    rewrite (setValue_run cs2 ws r s t l lf (TBasic b) _ Hr Hp Htg Hb). mrun.
    apply (Hfin _ (Some [])).
    + rewrite <-Hb. by apply target_update.
    + apply list_lookup_insert_eq. by eapply lookup_lt_Some.
  - (* the contents are kept *)
    mrun. by apply (Hfin _ o0).
Qed.

Lemma Hydrate_ASlice_run E r raw σ res σ' :
  UnmarshalText E r raw σ = Done res σ' →
  is_Some (wrappers σ' !! r) →
  Hydrate E (ASlice r) raw σ = Done (wrap_error (ASlice r) <$> res) σ'.
Proof.
  intros Hrun [s Hr].
  unfold Hydrate, HydrateWith, tempValue. cbn [ValueOf KindOf ptr_depth].
  rewrite decide_False by (by intros []).
  cbn [tempValue_loop KindOf]. rewrite decide_True by done.
  cbn [IsNil Elem]. mrun. cbn [app last Interface]. mrun.
  cbn [hydrateValue]. rewrite Hrun. destruct res as [err|]; mrun; [done|].
  unfold assignThroughChain. cbn [length ValueOf KindOf].
  rewrite decide_False by done. rewrite decide_False by (by intros []).
  cbn [Elem rev app assign_loop]. mrun. cbn [SetValue]. mrun.
  rewrite (get_wrapper_run _ _ _ Hr). mrun.
  unfold set_wrapper. mrun. unfold get_store, put_store.
  rewrite (list_insert_id _ _ _ Hr). by destruct σ'.
Qed.

Lemma append_empty_r (s : string) : s +:+ "" = s.
Proof.
  induction s as [|c s IH]; [done|].
  change (String c (s +:+ "") = String c s). by f_equal.
Qed.

Lemma append_char_assoc (cur : string) c s :
  (cur +:+ String c "") +:+ s = cur +:+ String c s.
Proof.
  induction cur as [|a cur IH]; [done|].
  change (String a ((cur +:+ String c "") +:+ s) = String a (cur +:+ String c s)).
  by f_equal.
Qed.

Lemma splitLoop_no_sep sep : ∀ s cur,
  Contains s sep = false → splitLoop sep 0 s cur = [cur +:+ s].
Proof.
  induction s as [|c s IH]; intros cur; cbn [Contains splitLoop].
  - intros _. by rewrite append_empty_r.
  - intros [Hp Hc]%orb_false_elim. rewrite Hp, (IH _ Hc).
    by rewrite append_char_assoc.
Qed.

Lemma Split_no_sep text sep :
  sep ≠ "" → Contains text sep = false → Split text sep = [text].
Proof.
  intros Hne Hc. unfold Split. destruct sep as [|c sep]; [done|].
  by rewrite (splitLoop_no_sep _ _ _ Hc).
Qed.

Lemma convert_chunks_fail E b pre : ∀ bad post xs err,
  convert_chunks E b pre = (xs, None) →
  String.length bad ≠ 0 →
  parseBasic E b bad = inr err →
  convert_chunks E b (pre ++ bad :: post) = (xs, Some err).
Proof.
  induction pre as [|c pre IH]; intros bad post xs err Hpre Hlen Hbad.
  - simpl in *. injection Hpre as <-. rewrite decide_False by done. by rewrite Hbad.
  - cbn [app convert_chunks] in *. case_decide; [by apply IH|].
    destruct (parseBasic E b c) as [x|e]; [|done].
    destruct (convert_chunks E b pre) as [xs0 e0] eqn:Hrest.
    injection Hpre as <- ->. by rewrite (IH bad post xs0 err eq_refl Hlen Hbad).
Qed.

(** ** Claims about the sequence accumulator: accumulation *)

(** C3: on a sequence destination of elements of a built-in kind with
    [NonAccum] unset, a call of [UnmarshalText] with text that is not empty
    sets [started]; the first such call starts from the empty sequence, every
    later one from the contents it finds, and the call appends what its
    chunks convert to.  On a destination not yet started, with int elements
    and the separator ",", the calls with "1,2" and then "3" leave 1, 2, 3,
    whether [UnmarshalText] is called directly or through [Hydrate]. *)
Theorem C3_first_call_clears_later_calls_append (E : Env) (σ : store) (r : nat)
    (s : Slice) (t : type) (l : loc) (b : basic) :
  wrappers σ !! r = Some s →
  ptrValue s = AVal (TPtr t) (VPtr (Some l)) →
  handle_ok σ (ptrValue s) = true →
  base_type t = TSlice (TBasic b) →
  NonAccum s = false →
  (∀ text, String.length text ≠ 0 →
     ∃ σ' res s',
       UnmarshalText E r text σ = Done res σ'
       ∧ wrappers σ' !! r = Some s' ∧ started s' = true
       ∧ contents σ' (ptrValue s)
         = (if started s then contents σ (ptrValue s) else [])
             ++ (convert_chunks E b (Split text (Separator s))).1)
  ∧ (b = BInt → Separator s = "," → started s = false →
     ∃ σ1 σ2,
       UnmarshalText E r "1,2" σ = Done None σ1
       ∧ UnmarshalText E r "3" σ1 = Done None σ2
       ∧ Hydrate E (ASlice r) "1,2" σ = Done None σ1
       ∧ Hydrate E (ASlice r) "3" σ1 = Done None σ2
       ∧ contents σ2 (ptrValue s) = [VInt 1; VInt 2; VInt 3]).
Proof.
  intros Hr Hp Hok Hb Hacc.
  assert (Hlt : (r < length (wrappers σ))%nat) by (by eapply lookup_lt_Some).
  split.
  - intros text Hlen.
    destruct (UnmarshalText_basic E σ r s t l b text Hr Hp Hok Hb Hlen)
      as (cs' & res & Hrun & Hc & _ & _).
    eexists _, res, (set_started s true). split; [exact Hrun|].
    split; [by apply list_lookup_insert_eq|]. split; [done|].
    rewrite Hc. unfold prior_contents. rewrite Hacc. by destruct (started s).
  - intros -> Hsep Hst.
    destruct (UnmarshalText_basic E σ r s t l BInt "1,2" Hr Hp Hok Hb)
      as (cs1 & res1 & Hrun1 & Hc1 & Hf1 & Hok1); [done|].
    rewrite Hsep in Hc1, Hf1.
    assert (H12 : convert_chunks E BInt (Split "1,2" ",")
                  = ([VInt 1; VInt 2], None)).
    { change (Split "1,2" ",") with ["1"; "2"].
      unfold convert_chunks, parseBasic. by destruct (env_arch E). }
    rewrite H12 in Hc1, Hf1. simpl in Hf1. subst res1.
    unfold prior_contents in Hc1. rewrite Hst in Hc1. simpl in Hc1.
    set (σ1 := mkStore cs1 (<[r := set_started s true]> (wrappers σ))) in *.
    assert (Hr1 : wrappers σ1 !! r = Some (set_started s true))
      by (by apply list_lookup_insert_eq).
    destruct (UnmarshalText_basic E σ1 r (set_started s true) t l BInt "3"
                Hr1 Hp Hok1 Hb)
      as (cs2 & res2 & Hrun2 & Hc2 & Hf2 & _); [done|].
    cbn [Separator set_started] in Hc2, Hf2. rewrite Hsep in Hc2, Hf2.
    assert (H3 : convert_chunks E BInt (Split "3" ",") = ([VInt 3], None)).
    { change (Split "3" ",") with ["3"].
      unfold convert_chunks, parseBasic. by destruct (env_arch E). }
    rewrite H3 in Hc2, Hf2. simpl in Hf2. subst res2.
    unfold prior_contents in Hc2. cbn [started NonAccum set_started ptrValue] in Hc2.
    rewrite Hacc in Hc2. simpl in Hc2. rewrite Hc1 in Hc2.
    eexists σ1, _. split; [exact Hrun1|]. split; [exact Hrun2|].
    split; [|split; [|exact Hc2]].
    + apply (Hydrate_ASlice_run E r "1,2" σ None σ1 Hrun1). by eexists.
    + apply (Hydrate_ASlice_run E r "3" σ1 None _ Hrun2). eexists.
      apply list_lookup_insert_eq. by eapply lookup_lt_Some.
Qed.

Lemma C3_first_call_clears_witness :
  (∃ σ' res s',
     UnmarshalText (plainEnv Arch64) 0 "7,8" int_slice_store = Done res σ'
     ∧ wrappers σ' !! 0 = Some s' ∧ started s' = true
     ∧ contents σ' int_slice_handle
       = [] ++ (convert_chunks (plainEnv Arch64) BInt (Split "7,8" ",")).1)
  ∧ (∃ σ1 σ2,
       UnmarshalText (plainEnv Arch64) 0 "1,2" int_slice_store = Done None σ1
       ∧ UnmarshalText (plainEnv Arch64) 0 "3" σ1 = Done None σ2
       ∧ Hydrate (plainEnv Arch64) (ASlice 0) "1,2" int_slice_store = Done None σ1
       ∧ Hydrate (plainEnv Arch64) (ASlice 0) "3" σ1 = Done None σ2
       ∧ contents σ2 int_slice_handle = [VInt 1; VInt 2; VInt 3]).
Proof.
  destruct (C3_first_call_clears_later_calls_append (plainEnv Arch64)
              int_slice_store 0 (MakeSlice int_slice_handle)
              (TSlice (TBasic BInt)) 0 BInt eq_refl eq_refl eq_refl eq_refl eq_refl)
    as [Hfirst Hexample].
  split; [apply (Hfirst "7,8"); discriminate|apply Hexample; reflexivity].
Defined.

(** C5: when a chunk fails to convert, [UnmarshalText] returns at that chunk
    with its failure, wrapped; the elements converted from the chunks
    before it stay appended and no later chunk is converted.  With int
    elements and the separator ",", the text "1,x,3" on a destination not yet
    started returns the syntax error of "x" and leaves exactly 1, whether
    [UnmarshalText] is called directly or through [Hydrate]. *)
Theorem C5_abort_at_first_failing_chunk (E : Env) (σ : store) (r : nat)
    (s : Slice) (t : type) (l : loc) (b : basic) :
  wrappers σ !! r = Some s →
  ptrValue s = AVal (TPtr t) (VPtr (Some l)) →
  handle_ok σ (ptrValue s) = true →
  base_type t = TSlice (TBasic b) →
  (∀ text pre bad post xs err,
     String.length text ≠ 0 →
     Split text (Separator s) = pre ++ bad :: post →
     convert_chunks E b pre = (xs, None) →
     String.length bad ≠ 0 →
     parseBasic E b bad = inr err →
     ∃ σ' li,
       UnmarshalText E r text σ
         = Done (Some (ErrWrap "slice: unmarshal text"
                         (wrap_error (AVal (TPtr (TBasic b)) (VPtr (Some li))) err))) σ'
       ∧ contents σ' (ptrValue s) = prior_contents σ s ++ xs)
  ∧ (b = BInt → Separator s = "," → started s = false →
     ∃ σ' res,
       UnmarshalText E r "1,x,3" σ = Done (Some res) σ'
       ∧ Hydrate E (ASlice r) "1,x,3" σ
         = Done (Some (wrap_error (ASlice r) res)) σ'
       ∧ root_cause res = ErrSyntax "Atoi" "x"
       ∧ contents σ' (ptrValue s) = [VInt 1]).
Proof.
  intros Hr Hp Hok Hb.
  assert (Hgen : ∀ text pre bad post xs err,
     String.length text ≠ 0 →
     Split text (Separator s) = pre ++ bad :: post →
     convert_chunks E b pre = (xs, None) →
     String.length bad ≠ 0 →
     parseBasic E b bad = inr err →
     ∃ σ' li,
       UnmarshalText E r text σ
         = Done (Some (ErrWrap "slice: unmarshal text"
                         (wrap_error (AVal (TPtr (TBasic b)) (VPtr (Some li))) err))) σ'
       ∧ contents σ' (ptrValue s) = prior_contents σ s ++ xs
       ∧ is_Some (wrappers σ' !! r)).
  { intros text pre bad post xs err Hlen Hsplit Hpre Hbad Herr.
    destruct (UnmarshalText_basic E σ r s t l b text Hr Hp Hok Hb Hlen)
      as (cs' & res & Hrun & Hc & Hf & _).
    rewrite Hsplit, (convert_chunks_fail E b pre bad post xs err Hpre Hbad Herr)
      in Hc, Hf.
    destruct Hf as [li ->]. eexists _, li. split; [exact Hrun|].
    split; [done|]. eexists. apply list_lookup_insert_eq.
    by eapply lookup_lt_Some. }
  split.
  { intros text pre bad post xs err H1 H2 H3 H4 H5.
    destruct (Hgen text pre bad post xs err H1 H2 H3 H4 H5)
      as (σ' & li & Hrun & Hc & _). by exists σ', li. }
  intros -> Hsep Hst.
  destruct (Hgen "1,x,3" ["1"] "x" ["3"] [VInt 1] (ErrSyntax "Atoi" "x"))
    as (σ' & li & Hrun & Hc & Hw);
    [done|by rewrite Hsep| |done| |].
  - unfold convert_chunks, parseBasic. by destruct (env_arch E).
  - unfold parseBasic. by destruct (env_arch E).
  - unfold prior_contents in Hc. rewrite Hst in Hc.
    eexists σ', _. split; [exact Hrun|]. split; [|by split].
    apply (Hydrate_ASlice_run E r "1,x,3" σ _ σ' Hrun Hw).
Qed.

Lemma C5_abort_at_first_failing_chunk_witness :
  (∃ σ' li,
     UnmarshalText (plainEnv Arch64) 0 "4,5,y,6" int_slice_store
       = Done (Some (ErrWrap "slice: unmarshal text"
                       (wrap_error (AVal (TPtr (TBasic BInt)) (VPtr (Some li)))
                          (ErrSyntax "Atoi" "y")))) σ'
     ∧ contents σ' int_slice_handle
       = prior_contents int_slice_store (MakeSlice int_slice_handle)
           ++ [VInt 4; VInt 5])
  ∧ (∃ σ' res,
       UnmarshalText (plainEnv Arch64) 0 "1,x,3" int_slice_store = Done (Some res) σ'
       ∧ Hydrate (plainEnv Arch64) (ASlice 0) "1,x,3" int_slice_store
         = Done (Some (wrap_error (ASlice 0) res)) σ'
       ∧ root_cause res = ErrSyntax "Atoi" "x"
       ∧ contents σ' int_slice_handle = [VInt 1]).
Proof.
  destruct (C5_abort_at_first_failing_chunk (plainEnv Arch64) int_slice_store
              0 (MakeSlice int_slice_handle) (TSlice (TBasic BInt)) 0 BInt
              eq_refl eq_refl eq_refl eq_refl)
    as [Hgen Hexample].
  split; [|apply Hexample; reflexivity].
  apply (Hgen "4,5,y,6" ["4"; "5"] "y" ["6"]); try reflexivity; discriminate.
Defined.

(** C2 fails as stated: [MakeSlice] leaves [SplitEach] unset, and one call
    with "1,2" appends two elements, because the text is split at the
    configured separator. *)
Lemma C2_counterexample_whole_token_is_split :
  SplitEach (MakeSlice int_slice_handle) = false
  ∧ ∃ σ',
      UnmarshalText (plainEnv Arch64) 0 "1,2" int_slice_store = Done None σ'
      ∧ contents σ' int_slice_handle = [VInt 1; VInt 2].
Proof.
  split; [reflexivity|]. eexists. split; [vm_compute; reflexivity|reflexivity].
Qed.

(** C2, amended: whatever [SplitEach] is, [UnmarshalText] splits text that
    is not empty at the configured separator, and one call appends one
    element for each chunk that is not empty.  The text is a single element
    when the separator, not empty, does not occur in it. *)
Theorem C2_separator_splits_in_both_modes (E : Env) (σ : store) (r : nat)
    (s : Slice) (t : type) (l : loc) (b : basic) (text : string) :
  wrappers σ !! r = Some s →
  ptrValue s = AVal (TPtr t) (VPtr (Some l)) →
  handle_ok σ (ptrValue s) = true →
  base_type t = TSlice (TBasic b) →
  String.length text ≠ 0 →
  ∃ σ' res,
    UnmarshalText E r text σ = Done res σ'
    ∧ contents σ' (ptrValue s)
      = prior_contents σ s ++ (convert_chunks E b (Split text (Separator s))).1
    ∧ chunk_failure (TBasic b) (convert_chunks E b (Split text (Separator s))).2 res
    ∧ (Separator s ≠ "" → Contains text (Separator s) = false →
       ∀ x, parseBasic E b text = inl x →
         res = None ∧ contents σ' (ptrValue s) = prior_contents σ s ++ [x]).
Proof.
  intros Hr Hp Hok Hb Hlen.
  destruct (UnmarshalText_basic E σ r s t l b text Hr Hp Hok Hb Hlen)
    as (cs' & res & Hrun & Hc & Hf & _).
  eexists _, res. split; [exact Hrun|]. split; [done|]. split; [done|].
  intros Hne Hno x Hx.
  rewrite (Split_no_sep _ _ Hne Hno) in Hc, Hf.
  cbn [convert_chunks] in Hc, Hf. rewrite decide_False in Hc, Hf by done.
  rewrite Hx in Hc, Hf. by split.
Qed.

Lemma C2_separator_splits_witness :
  ∃ σ' res,
    UnmarshalText (plainEnv Arch64) 0 "12" int_slice_store = Done res σ'
    ∧ contents σ' int_slice_handle
      = prior_contents int_slice_store (MakeSlice int_slice_handle)
          ++ (convert_chunks (plainEnv Arch64) BInt (Split "12" ",")).1
    ∧ chunk_failure (TBasic BInt)
        (convert_chunks (plainEnv Arch64) BInt (Split "12" ",")).2 res
    ∧ ("," ≠ "" → Contains "12" "," = false →
       ∀ x, parseBasic (plainEnv Arch64) BInt "12" = inl x →
         res = None
         ∧ contents σ' int_slice_handle
           = prior_contents int_slice_store (MakeSlice int_slice_handle) ++ [x]).
Proof.
  apply (C2_separator_splits_in_both_modes (plainEnv Arch64) int_slice_store
           0 (MakeSlice int_slice_handle) (TSlice (TBasic BInt)) 0 BInt "12");
    try reflexivity.
  discriminate.
Defined.

(** ** Decimal text of integers: printing and reading back *)

Section DecimalText.
Local Open Scope Z_scope.

Lemma pow2_64 : 2 ^ 64 = 18446744073709551616.
Proof. reflexivity. Qed.

Lemma maxUint64_eq : maxUint64 = 18446744073709551615.
Proof. reflexivity. Qed.

Lemma byte_digit_char d : 0 ≤ d < 10 → byte (digit_char d) = 48 + d.
Proof.
  intros Hd.
  assert (d = 0 ∨ d = 1 ∨ d = 2 ∨ d = 3 ∨ d = 4 ∨ d = 5 ∨ d = 6 ∨ d = 7
          ∨ d = 8 ∨ d = 9) as Hcases by lia.
  repeat (destruct Hcases as [->|Hcases]; [reflexivity|]). by subst.
Qed.

Lemma digit_char_not_sign d :
  0 ≤ d < 10 →
  bool_decide (digit_char d = "+"%char) = false
  ∧ bool_decide (digit_char d = "-"%char) = false.
Proof.
  intros Hd.
  assert (d = 0 ∨ d = 1 ∨ d = 2 ∨ d = 3 ∨ d = 4 ∨ d = 5 ∨ d = 6 ∨ d = 7
          ∨ d = 8 ∨ d = 9) as Hcases by lia.
  repeat (destruct Hcases as [->|Hcases]; [by split|]). by subst.
Qed.

(** One digit read after the value [n]. *)
Lemma parseUintLoop_digit maxVal n d s :
  0 ≤ d < 10 → 0 ≤ n → n * 10 + d ≤ maxVal → maxVal ≤ maxUint64 →
  parseUintLoop maxVal n (String (digit_char d) s)
    = parseUintLoop maxVal (n * 10 + d) s.
Proof.
  intros Hd Hn Hle Hmax. cbn [parseUintLoop]. rewrite (byte_digit_char d Hd).
  rewrite maxUint64_eq in *. rewrite pow2_64.
  change (18446744073709551615 / 10 + 1) with 1844674407370955162.
  replace (48 + d - 48) with d by lia.
  rewrite (Z.mod_small (n * 10 + d)) by lia.
  destruct (Z.leb_spec 48 (48 + d)); [|lia].
  destruct (Z.leb_spec (48 + d) 57); [|lia].
  destruct (Z.leb_spec 1844674407370955162 n); [lia|].
  destruct (Z.ltb_spec (n * 10 + d) (n * 10)); [lia|].
  destruct (Z.ltb_spec maxVal (n * 10 + d)); [lia|]. done.
Qed.

Lemma parseUintLoop_formatBits maxVal : ∀ fuel u acc,
  0 ≤ u → u < 10 ^ Z.of_nat fuel → u ≤ maxVal → maxVal ≤ maxUint64 →
  parseUintLoop maxVal 0 (formatBits fuel u acc) = parseUintLoop maxVal u acc.
Proof.
  induction fuel as [|fuel IH]; intros u acc Hu Hlt Hle Hmax.
  { simpl in *. by replace u with 0 by lia. }
  cbn [formatBits]. rewrite Nat2Z.inj_succ, Z.pow_succ_r in Hlt by lia.
  destruct (Z.ltb_spec u 10) as [Hsmall|Hbig].
  - rewrite parseUintLoop_digit by lia. by replace (0 * 10 + u) with u by lia.
  - pose proof (Z.div_mod u 10 ltac:(lia)) as Hdm.
    pose proof (Z.mod_pos_bound u 10 ltac:(lia)) as Hmod.
    rewrite IH by lia.
    rewrite parseUintLoop_digit by lia.
    by replace (u / 10 * 10 + u mod 10) with u by lia.
Qed.

Lemma formatBits_head fuel u acc :
  0 ≤ u →
  ∃ d rest, 0 ≤ d < 10 ∧ formatBits (S fuel) u acc = String (digit_char d) rest.
Proof.
  revert u acc. induction fuel as [|fuel IH]; intros u acc Hu.
  - cbn [formatBits]. destruct (Z.ltb_spec u 10).
    + exists u, acc. split; [lia|done].
    + exists (u mod 10), acc. split; [|done]. apply Z.mod_pos_bound. lia.
  - change (formatBits (S (S fuel)) u acc)
      with (if u <? 10 then String (digit_char u) acc
            else formatBits (S fuel) (u / 10) (String (digit_char (u mod 10)) acc)).
    destruct (Z.ltb_spec u 10).
    + exists u, acc. split; [lia|done].
    + apply IH. apply Z.div_pos; lia.
Qed.

Lemma parseUintLoop_range maxVal : ∀ s n0 n,
  0 ≤ n0 ≤ maxVal →
  parseUintLoop maxVal n0 s = NumOk n → 0 ≤ n ≤ maxVal.
Proof.
  induction s as [|c s IH]; intros n0 n Hn0; cbn [parseUintLoop].
  { by intros [= <-]. }
  destruct (andb _ _); [|done].
  destruct (Z.leb _ n0); [done|].
  rewrite pow2_64.
  destruct (Z.ltb_spec ((n0 * 10 + (byte c - 48)) mod 18446744073709551616) (n0 * 10));
    [done|].
  destruct (Z.ltb_spec maxVal ((n0 * 10 + (byte c - 48)) mod 18446744073709551616));
    [done|].
  cbn [orb]. apply IH. lia.
Qed.

Lemma parseUintLoop_clamp maxVal : ∀ s n0 c,
  parseUintLoop maxVal n0 s = NumRange c → c = maxVal.
Proof.
  induction s as [|ch s IH]; intros n0 c; cbn [parseUintLoop]; [done|].
  destruct (andb _ _); [|done].
  destruct (Z.leb _ n0); [by intros [= <-]|].
  destruct (orb _ _); [by intros [= <-]|]. apply IH.
Qed.

Lemma parseUint_range a s bitSize n :
  size_ok a bitSize →
  parseUint a s bitSize = NumOk n → 0 ≤ n ≤ 2 ^ bitSizeOf a bitSize - 1.
Proof.
  intros Hw. unfold parseUint. destruct s as [|c s]; [done|].
  apply parseUintLoop_range.
  destruct Hw as [-> | [-> | [-> | ->]]]; done.
Qed.

Lemma parseUint_FormatUint a bitSize u :
  size_ok a bitSize →
  0 ≤ u ≤ 2 ^ bitSizeOf a bitSize - 1 →
  parseUint a (FormatUint u) bitSize = NumOk u.
Proof.
  intros Hw Hu. unfold parseUint, FormatUint.
  destruct (formatBits_head 19 u "" ltac:(lia)) as (d & rest & Hd & Hhead).
  rewrite Hhead, <-Hhead.
  assert (Hmax : 2 ^ bitSizeOf a bitSize - 1 ≤ maxUint64).
  { rewrite maxUint64_eq. destruct Hw as [-> | [-> | [-> | ->]]]; done. }
  rewrite parseUintLoop_formatBits; [done|lia| |lia|done].
  change (10 ^ Z.of_nat 20) with 100000000000000000000.
  rewrite maxUint64_eq in Hmax. lia.
Qed.

Lemma parseInt_range a s bitSize n :
  size_ok a bitSize →
  parseInt a s bitSize = NumOk n →
  - 2 ^ (bitSizeOf a bitSize - 1) ≤ n < 2 ^ (bitSizeOf a bitSize - 1).
Proof.
  intros Hw.
  assert (Hpos : 0 < 2 ^ (bitSizeOf a bitSize - 1)).
  { destruct Hw as [-> | [-> | [-> | ->]]]; done. }
  unfold parseInt. destruct s as [|c rest]; [done|].
  match goal with |- context [parseUint a ?x bitSize] => set (s' := x) end.
  destruct (parseUint a s' bitSize) as [un| |un] eqn:Hun; [|done|].
  - apply parseUint_range in Hun; [|done].
    destruct (bool_decide (c = "-"%char)); cbn [negb andb];
      destruct (Z.leb_spec (2 ^ (bitSizeOf a bitSize - 1)) un);
      destruct (Z.ltb_spec (2 ^ (bitSizeOf a bitSize - 1)) un);
      try done; intros [= <-]; lia.
  - assert (un = 2 ^ bitSizeOf a bitSize - 1) as ->.
    { unfold parseUint in Hun. destruct s'; [done|].
      by apply parseUintLoop_clamp in Hun. }
    destruct Hw as [-> | [-> | [-> | ->]]];
      by destruct (bool_decide (c = "-"%char)).
Qed.

Lemma parseInt_FormatInt a bitSize n :
  size_ok a bitSize →
  - 2 ^ (bitSizeOf a bitSize - 1) ≤ n < 2 ^ (bitSizeOf a bitSize - 1) →
  parseInt a (FormatInt n) bitSize = NumOk n.
Proof.
  intros Hw Hn.
  assert (Hpow : 2 ^ bitSizeOf a bitSize = 2 * 2 ^ (bitSizeOf a bitSize - 1)).
  { destruct Hw as [-> | [-> | [-> | ->]]]; done. }
  assert (Hpos : 0 < 2 ^ (bitSizeOf a bitSize - 1)).
  { destruct Hw as [-> | [-> | [-> | ->]]]; done. }
  unfold FormatInt. destruct (Z.ltb_spec n 0) as [Hneg|Hnn].
  - unfold parseInt.
    change (bool_decide ("-"%char = "-"%char)) with true.
    change (bool_decide ("-"%char = "+"%char)) with false.
    cbn [orb negb andb].
    rewrite parseUint_FormatUint by (done || lia).
    destruct (Z.ltb_spec (2 ^ (bitSizeOf a bitSize - 1)) (- n)); [lia|].
    f_equal. lia.
  - unfold parseInt, FormatUint.
    destruct (formatBits_head 19 n "" ltac:(lia)) as (d & rest & Hd & Hhead).
    rewrite Hhead. destruct (digit_char_not_sign d Hd) as [-> ->].
    cbn [orb negb andb]. rewrite <-Hhead.
    fold (FormatUint n). rewrite parseUint_FormatUint by (done || lia).
    destruct (Z.leb_spec (2 ^ (bitSizeOf a bitSize - 1)) n); [lia|done].
Qed.

Lemma to_int_small w n :
  0 < w → - 2 ^ (w - 1) ≤ n < 2 ^ (w - 1) → to_int w n = n.
Proof.
  intros Hw Hn. unfold to_int.
  assert (2 ^ w = 2 * 2 ^ (w - 1)) as Hpow.
  { rewrite <-Z.pow_succ_r by lia. f_equal. lia. }
  rewrite Z.mod_small by lia. lia.
Qed.

Lemma to_uint_small w n : 0 ≤ n ≤ 2 ^ w - 1 → to_uint w n = n.
Proof. intros Hn. unfold to_uint. apply Z.mod_small. lia. Qed.

End DecimalText.

Lemma size_ok_0 a : size_ok a 0.
Proof. destruct a; unfold size_ok; simpl; auto. Qed.

Lemma ParseInt_round_trip a w raw n :
  size_ok a w →
  ParseInt a raw w = inl n →
  ParseInt a (FormatInt n) w = inl n
  ∧ (- 2 ^ (bitSizeOf a w - 1) ≤ n < 2 ^ (bitSizeOf a w - 1))%Z.
Proof.
  intros Hw. unfold ParseInt.
  destruct (parseInt a raw w) as [m| |] eqn:Hp; [|done..]. intros [= ->].
  pose proof (parseInt_range _ _ _ _ Hw Hp) as Hr.
  by rewrite (parseInt_FormatInt _ _ _ Hw Hr).
Qed.

Lemma Atoi_round_trip a raw n :
  Atoi a raw = inl n → Atoi a (FormatInt n) = inl n.
Proof.
  unfold Atoi.
  destruct (parseInt a raw 0) as [m| |] eqn:Hp; [|done..]. intros [= ->].
  pose proof (parseInt_range _ _ _ _ (size_ok_0 a) Hp) as Hr.
  by rewrite (parseInt_FormatInt _ _ _ (size_ok_0 a) Hr).
Qed.

Lemma ParseUint_round_trip a w raw n :
  size_ok a w →
  ParseUint a raw w = inl n →
  ParseUint a (FormatUint n) w = inl n
  ∧ (0 ≤ n ≤ 2 ^ bitSizeOf a w - 1)%Z.
Proof.
  intros Hw. unfold ParseUint.
  destruct (parseUint a raw w) as [m| |] eqn:Hp; [|done..]. intros [= ->].
  pose proof (parseUint_range _ _ _ _ Hw Hp) as Hr.
  by rewrite (parseUint_FormatUint _ _ _ Hw Hr).
Qed.

Lemma map_ok_inl {A B} (f : A → B) (r : A + error) y :
  map_ok f r = inl y → ∃ x, r = inl x ∧ y = f x.
Proof. destruct r as [x|e]; [|done]. intros [= <-]. eauto. Qed.

(** ** Reading back what was rendered *)

Lemma parseBasic_round_trip E b raw x :
  float_round_trip E →
  duration_round_trip E →
  parseBasic E b raw = inl x →
  parseBasic E b (sprint_basic E b x) = inl x.
Proof.
  intros [Hf64 Hf32] Hdur.
  assert (Hsigned : ∀ w, size_ok (env_arch E) w → (0 < w)%Z →
            bitSizeOf (env_arch E) w = w →
            map_ok (λ n, VInt (to_int w n)) (ParseInt (env_arch E) raw w) = inl x →
            ∃ n, x = VInt n
                 ∧ map_ok (λ n, VInt (to_int w n))
                     (ParseInt (env_arch E) (FormatInt n) w) = inl x).
  { intros w Hw Hpos Hbs (n & Hp & ->)%map_ok_inl.
    destruct (ParseInt_round_trip _ _ _ _ Hw Hp) as [Hrt Hr]. rewrite Hbs in Hr.
    exists n. rewrite (to_int_small w n Hpos Hr). split; [done|].
    rewrite Hrt. simpl. by rewrite (to_int_small w n Hpos Hr). }
  assert (Hunsigned : ∀ w w', size_ok (env_arch E) w →
            bitSizeOf (env_arch E) w = w' →
            map_ok (λ n, VInt (to_uint w' n)) (ParseUint (env_arch E) raw w) = inl x →
            ∃ n, x = VInt n
                 ∧ map_ok (λ n, VInt (to_uint w' n))
                     (ParseUint (env_arch E) (FormatUint n) w) = inl x).
  { intros w w' Hw Hbs (n & Hp & ->)%map_ok_inl.
    destruct (ParseUint_round_trip _ _ _ _ Hw Hp) as [Hrt Hr]. rewrite Hbs in Hr.
    exists n. rewrite (to_uint_small w' n Hr). split; [done|].
    rewrite Hrt. simpl. by rewrite (to_uint_small w' n Hr). }
  destruct b; cbn [parseBasic].
  - (* string *) by intros [= <-].
  - (* bool *)
    intros (v & Hp & ->)%map_ok_inl. unfold ParseBool in Hp.
    repeat case_decide; try done; by injection Hp as <-.
  - (* int *)
    intros (n & Hp & ->)%map_ok_inl. cbn [sprint_basic].
    by rewrite (Atoi_round_trip _ _ _ Hp).
  - (* int8 *)
    intros Hx. destruct (Hsigned 8%Z) as (n & -> & Hn); try done.
    unfold size_ok, bitSizeOf. simpl. auto.
  - (* int16 *)
    intros Hx. destruct (Hsigned 16%Z) as (n & -> & Hn); try done.
    unfold size_ok, bitSizeOf. simpl. auto.
  - (* int32 *)
    intros Hx. destruct (Hsigned 32%Z) as (n & -> & Hn); try done.
    unfold size_ok, bitSizeOf. simpl. auto.
  - (* int64 *)
    intros (n & Hp & ->)%map_ok_inl. cbn [sprint_basic].
    by destruct (ParseInt_round_trip _ _ _ _ (size_ok_0 _) Hp) as [-> _].
  - (* uint *)
    intros Hx.
    destruct (Hunsigned 0%Z (IntSize (env_arch E))) as (n & -> & Hn);
      try done; apply size_ok_0.
  - (* uint8 *)
    intros Hx. destruct (Hunsigned 8%Z 8%Z) as (n & -> & Hn); try done.
    unfold size_ok, bitSizeOf. simpl. auto.
  - (* uint16 *)
    intros Hx. destruct (Hunsigned 16%Z 16%Z) as (n & -> & Hn); try done.
    unfold size_ok, bitSizeOf. simpl. auto.
  - (* uint32 *)
    intros Hx. destruct (Hunsigned 32%Z 32%Z) as (n & -> & Hn); try done.
    unfold size_ok, bitSizeOf. simpl. auto.
  - (* uint64 *)
    intros (n & Hp & ->)%map_ok_inl. cbn [sprint_basic].
    by destruct (ParseUint_round_trip _ _ _ _ (size_ok_0 _) Hp) as [-> _].
  - (* float32 *)
    intros (f & Hp & ->)%map_ok_inl. cbn [sprint_basic].
    destruct (Hf32 _ _ Hp) as (f' & -> & Hf'). simpl. by rewrite Hf'.
  - (* float64 *)
    intros (f & Hp & ->)%map_ok_inl. cbn [sprint_basic].
    by rewrite (Hf64 _ _ Hp).
  - (* duration *)
    intros (d & Hp & ->)%map_ok_inl. cbn [sprint_basic].
    by rewrite (Hdur _ _ Hp).
Qed.

Lemma default_loop_target t : ∀ σ l lf,
  target (cells σ) t l = Some lf →
  default_loop (type_depth t) (RV t (At l)) σ
    = Done (Some (RV (base_type t) (At lf))) σ.
Proof.
  induction t as [b|t IH|t _|n| | |]; intros σ l lf Ht;
    try (simpl in Ht; destruct (cells σ !! l) as [[t0 v0]|]; [|done];
         case_decide; [|done]; by injection Ht as <-).
  apply target_ptr_inv in Ht as (l' & Hl & Ht).
  cbn [type_depth default_loop KindOf type_kind base_type].
  rewrite decide_True by done. mrun.
  rewrite (IsNil_At _ _ _ _ Hl). mrun.
  rewrite (Elem_At _ _ _ _ Hl). mrun. by apply IH.
Qed.

Lemma DefaultValueText_default_basic E σ t l lf b x :
  target (cells σ) t l = Some lf →
  base_type t = TBasic b →
  cells σ !! lf = Some (TBasic b, x) →
  DefaultValueText_default E (AVal (TPtr t) (VPtr (Some l))) σ
    = Done (sprint_basic E b x) σ.
Proof.
  intros Ht Hb Hx. unfold DefaultValueText_default.
  cbn [ValueOf KindOf type_kind ptr_depth type_depth default_loop].
  rewrite decide_False by done. rewrite decide_True by done.
  mrun. cbn [IsNil Elem load]. mrun.
  rewrite (default_loop_target t σ l lf Ht). mrun.
  rewrite Hb, (load_At _ _ _ _ Hx). by mrun.
Qed.

Lemma DefaultValueText_basic E σ t l lf b x :
  target (cells σ) t l = Some lf →
  base_type t = TBasic b →
  cells σ !! lf = Some (TBasic b, x) →
  DefaultValueText E (AVal (TPtr t) (VPtr (Some l))) σ
    = Done (sprint_basic E b x) σ.
Proof.
  intros Ht Hb Hx.
  pose proof (DefaultValueText_default_basic E σ t l lf b x Ht Hb Hx) as Hd.
  destruct t as [b0|t'|t'|n| | |]; try done.
  simpl in Hb. injection Hb as ->.
  (* [*time.Duration] is rendered as a [fmt.Stringer], to the same text *)
  destruct b; exact Hd.
Qed.

(** ** Claim about the round trip *)

(** C7: for every built-in kind, when a raw token converts into a
    destination, the text that [DefaultValueText] renders from that
    destination converts into any other destination of the kind, and gives
    the same value.  Floating-point numbers and durations are read and
    printed by the Go standard library, whose round trip is assumed. *)
Theorem C7_convert_render_round_trip (E : Env) (b : basic) (raw : string)
    (σ σ1 : store) (t : type) (l : loc) :
  float_round_trip E →
  duration_round_trip E →
  handle_ok σ (AVal (TPtr t) (VPtr (Some l))) = true →
  base_type t = TBasic b →
  Hydrate E (AVal (TPtr t) (VPtr (Some l))) raw σ = Done None σ1 →
  ∃ x text,
    dest_value σ1 (AVal (TPtr t) (VPtr (Some l))) = Some x
    ∧ DefaultValueText E (AVal (TPtr t) (VPtr (Some l))) σ1 = Done text σ1
    ∧ ∀ σ2 t2 l2,
        handle_ok σ2 (AVal (TPtr t2) (VPtr (Some l2))) = true →
        base_type t2 = TBasic b →
        ∃ σ3,
          Hydrate E (AVal (TPtr t2) (VPtr (Some l2))) text σ2 = Done None σ3
          ∧ dest_value σ3 (AVal (TPtr t2) (VPtr (Some l2))) = Some x.
Proof.
  intros Hfl Hdur Hok Hb Hrun.
  destruct (parseBasic E b raw) as [x|err] eqn:Hparse.
  2: { unfold Hydrate in Hrun. rewrite (Hydrate_basic _ _ _ _ _ _ _ Hok Hb) in Hrun.
       rewrite Hparse in Hrun. by destruct (resolve t (cells σ) l) as [[? ?] ?]. }
  destruct (Hydrate_basic_ok E (UnmarshalText E) σ t l b raw x Hok Hb Hparse)
    as (cs1 & lf & Hrun1 & Ht1 & Hx1).
  unfold Hydrate in Hrun. rewrite Hrun1 in Hrun. injection Hrun as <-.
  exists x, (sprint_basic E b x). split; [|split].
  - unfold dest_value, dest. cbn [cells with_cells]. rewrite Ht1. simpl.
    by rewrite Hx1.
  - by apply (DefaultValueText_basic E _ t l lf b x).
  - intros σ2 t2 l2 Hok2 Hb2.
    pose proof (parseBasic_round_trip E b raw x Hfl Hdur Hparse) as Hback.
    destruct (Hydrate_basic_ok E (UnmarshalText E) σ2 t2 l2 b _ x Hok2 Hb2 Hback)
      as (cs3 & lf3 & Hrun3 & Ht3 & Hx3).
    eexists. split; [exact Hrun3|].
    unfold dest_value, dest. cbn [cells with_cells]. rewrite Ht3. simpl.
    by rewrite Hx3.
Qed.

Lemma plainEnv_float_round_trip a : float_round_trip (plainEnv a).
Proof.
  split; cbn [plainEnv ParseFloat FormatFloat to_float32].
  - intros s f Hp.
    by destruct (ParseInt_round_trip a 64 s f) as [-> _];
      [unfold size_ok, bitSizeOf; simpl; auto|done|].
  - intros s f Hp. exists f. split; [|done].
    by destruct (ParseInt_round_trip a 64 s f) as [-> _];
      [unfold size_ok, bitSizeOf; simpl; auto|done|].
Qed.

Lemma plainEnv_duration_round_trip a : duration_round_trip (plainEnv a).
Proof.
  intros s d Hp. cbn [plainEnv ParseDuration DurationString] in *.
  by destruct (ParseInt_round_trip a 64 s d) as [-> _];
    [unfold size_ok, bitSizeOf; simpl; auto|done|].
Qed.

Lemma C7_convert_render_round_trip_witness :
  ∃ x text,
    dest_value (mkStore [(TBasic BInt8, VInt (-128))] [])
      (AVal (TPtr (TBasic BInt8)) (VPtr (Some 0))) = Some x
    ∧ DefaultValueText (plainEnv Arch64) (AVal (TPtr (TBasic BInt8)) (VPtr (Some 0)))
        (mkStore [(TBasic BInt8, VInt (-128))] [])
      = Done text (mkStore [(TBasic BInt8, VInt (-128))] [])
    ∧ ∀ σ2 t2 l2,
        handle_ok σ2 (AVal (TPtr t2) (VPtr (Some l2))) = true →
        base_type t2 = TBasic BInt8 →
        ∃ σ3,
          Hydrate (plainEnv Arch64) (AVal (TPtr t2) (VPtr (Some l2))) text σ2
            = Done None σ3
          ∧ dest_value σ3 (AVal (TPtr t2) (VPtr (Some l2))) = Some x.
Proof.
  apply (C7_convert_render_round_trip (plainEnv Arch64) BInt8 "-128"
           (mkStore [(TBasic BInt8, VInt 0)] [])
           (mkStore [(TBasic BInt8, VInt (-128))] [])
           (TBasic BInt8) 0
           (plainEnv_float_round_trip Arch64)
           (plainEnv_duration_round_trip Arch64));
    reflexivity.
Defined.

(** * Further properties of the package *)

(** ** [Hydrate] *)

Lemma parseBasic_shape E b raw x :
  parseBasic E b raw = inl x → has_shape (TBasic b) x = true.
Proof.
  destruct b; cbn [parseBasic]; try (by intros [= <-]);
    by intros (y & _ & ->)%map_ok_inl.
Qed.

(** X1: a value that is not a pointer is refused by [Hydrate] before
    anything else happens: the error is [ErrTypeUnsupported], wrapped, and
    the store is as it was.  This holds for the nil interface, for a slice
    or a number passed by value, and for an [OnSetFunc] or [OnSetBoolFunc]
    passed by value, whose function is not called. *)
Theorem X1_Hydrate_refuses_non_pointer (E : Env) (val : any) (raw : string)
    (σ : store) :
  KindOf (ValueOf val) ≠ Pointer →
  Hydrate E val raw σ = Done (Some (wrap_error val ErrTypeUnsupported)) σ.
Proof. intros Hk. by apply Hydrate_not_pointer. Qed.

Lemma X1_Hydrate_refuses_non_pointer_witness :
  Hydrate (plainEnv Arch64) (AVal TOnSetFunc (VFunc (Some 0))) "on"
    (mkStore [] [])
  = Done (Some (wrap_error (AVal TOnSetFunc (VFunc (Some 0))) ErrTypeUnsupported))
         (mkStore [] []).
Proof.
  apply (X1_Hydrate_refuses_non_pointer (plainEnv Arch64)
           (AVal TOnSetFunc (VFunc (Some 0))) "on" (mkStore [] [])).
  discriminate.
Defined.

(** X2: a handle that is itself a nil pointer makes [Hydrate] panic,
    whatever the type pointed to, the text and the store: [tempValue] calls
    [Set] on the [reflect.Value] of the argument, which is not
    addressable. *)
Theorem X2_Hydrate_nil_handle_panics (E : Env) (t : type) (raw : string)
    (σ : store) :
  ∃ msg, Hydrate E (AVal (TPtr t) (VPtr None)) raw σ = Panic msg.
Proof. by eexists. Qed.

(** X3: on a destination of a built-in kind whose layers are all allocated,
    [Hydrate] writes the terminal cell and nothing else when the text
    parses, and leaves the store exactly as it was when it does not. *)
Theorem X3_Hydrate_writes_only_the_terminal_cell (E : Env) (σ : store)
    (t : type) (l lf : loc) (b : basic) (raw : string) :
  handle_ok σ (AVal (TPtr t) (VPtr (Some l))) = true →
  base_type t = TBasic b →
  dest σ (AVal (TPtr t) (VPtr (Some l))) = Some lf →
  Hydrate E (AVal (TPtr t) (VPtr (Some l))) raw σ =
    match parseBasic E b raw with
    | inl x => Done None (with_cells σ (<[lf := (TBasic b, x)]> (cells σ)))
    | inr err => Done (Some (wrap_error (AVal (TPtr t) (VPtr (Some l))) err)) σ
    end.
Proof.
  intros Hok Hb Hd. unfold Hydrate.
  rewrite (Hydrate_basic _ _ _ _ _ _ _ Hok Hb).
  simpl in Hd. rewrite (resolve_target _ _ _ _ Hd).
  destruct (parseBasic E b raw); [done|]. by rewrite with_cells_id.
Qed.

Lemma X3_Hydrate_writes_only_the_terminal_cell_witness :
  Hydrate (plainEnv Arch64) (AVal (TPtr (TPtr (TBasic BBool))) (VPtr (Some 0))) "T"
    (mkStore [(TPtr (TBasic BBool), VPtr (Some 1)); (TBasic BBool, VBool false)] [])
  = match parseBasic (plainEnv Arch64) BBool "T" with
    | inl x =>
        Done None
          (with_cells
             (mkStore [(TPtr (TBasic BBool), VPtr (Some 1));
                       (TBasic BBool, VBool false)] [])
             (<[1 := (TBasic BBool, x)]>
                [(TPtr (TBasic BBool), VPtr (Some 1)); (TBasic BBool, VBool false)]))
    | inr err =>
        Done (Some (wrap_error (AVal (TPtr (TPtr (TBasic BBool))) (VPtr (Some 0))) err))
          (mkStore [(TPtr (TBasic BBool), VPtr (Some 1));
                    (TBasic BBool, VBool false)] [])
    end.
Proof.
  apply (X3_Hydrate_writes_only_the_terminal_cell (plainEnv Arch64)
           (mkStore [(TPtr (TBasic BBool), VPtr (Some 1));
                     (TBasic BBool, VBool false)] [])
           (TPtr (TBasic BBool)) 0 1 BBool "T"); reflexivity.
Defined.

(** X4: the last write wins.  On a destination of a built-in kind, with
    nil layers or without, hydrating with any text and then with a text that
    parses gives the result and the store of hydrating with the second text
    alone. *)
Theorem X4_Hydrate_last_write_wins (E : Env) (σ : store) (t : type) (l : loc)
    (b : basic) (raw1 raw2 : string) (x2 : value) :
  handle_ok σ (AVal (TPtr t) (VPtr (Some l))) = true →
  base_type t = TBasic b →
  parseBasic E b raw2 = inl x2 →
  (Hydrate E (AVal (TPtr t) (VPtr (Some l))) raw1
     ≫= λ _, Hydrate E (AVal (TPtr t) (VPtr (Some l))) raw2) σ
  = Hydrate E (AVal (TPtr t) (VPtr (Some l))) raw2 σ.
Proof.
  intros Hok Hb Hp2. rewrite bind_run. unfold Hydrate.
  rewrite !(Hydrate_basic _ _ _ _ _ _ _ Hok Hb), Hp2.
  pose proof Hok as Hok0.
  unfold handle_ok in Hok0. cbn [chain_ok] in Hok0.
  destruct (cells σ !! l) as [[t0 v0]|] eqn:Hl; [|done].
  apply andb_prop in Hok0 as [Ht Hok0]. apply bool_decide_eq_true in Ht. subst t0.
  pose proof (resolve_spec t _ l v0 Hl Hok0) as Hspec.
  pose proof (terminal_shape t _ v0 Hok0) as Hshape.
  destruct (resolve t (cells σ) l) as [[cs2 lf] chain].
  destruct Hspec as (_ & Htg & _ & Hx).
  assert (Hsecond : ∀ cs1,
    target cs1 t l = Some lf →
    (∃ x, cs1 !! lf = Some (TBasic b, x) ∧ has_shape (TBasic b) x = true) →
    HydrateWith E (UnmarshalText E) (AVal (TPtr t) (VPtr (Some l))) raw2
      (with_cells σ cs1)
    = Done None (with_cells σ (<[lf := (TBasic b, x2)]> cs1))).
  { intros cs1 Ht1 (x & Hx1 & Hs1).
    rewrite (Hydrate_basic E _ (with_cells σ cs1) t l b raw2); [| |done].
    2:{ unfold handle_ok. cbn [cells with_cells].
        apply (target_chain_ok t cs1 l lf x Ht1); by rewrite Hb. }
    cbn [cells with_cells]. by rewrite (resolve_target _ _ _ _ Ht1), Hp2. }
  destruct (parseBasic E b raw1) as [x1|err1] eqn:Hp1.
  - rewrite Hsecond.
    + cbn [with_cells wrappers]. by rewrite list_insert_insert_eq.
    + rewrite <-Hb. by apply target_update.
    + exists x1. split; [|by eapply parseBasic_shape].
      apply list_lookup_insert_eq. by eapply lookup_lt_Some.
  - rewrite Hsecond; [done|done|]. rewrite Hb in Hx, Hshape. eauto.
Qed.

Lemma X4_Hydrate_last_write_wins_witness :
  (Hydrate (plainEnv Arch64) (AVal (TPtr (TPtr (TBasic BInt))) (VPtr (Some 0))) "oops"
     ≫= λ _, Hydrate (plainEnv Arch64)
               (AVal (TPtr (TPtr (TBasic BInt))) (VPtr (Some 0))) "7")
    (mkStore [(TPtr (TBasic BInt), VPtr None)] [])
  = Hydrate (plainEnv Arch64) (AVal (TPtr (TPtr (TBasic BInt))) (VPtr (Some 0))) "7"
      (mkStore [(TPtr (TBasic BInt), VPtr None)] []).
Proof.
  apply (X4_Hydrate_last_write_wins (plainEnv Arch64)
           (mkStore [(TPtr (TBasic BInt), VPtr None)] [])
           (TPtr (TBasic BInt)) 0 BInt "oops" "7" (VInt 7)); reflexivity.
Defined.

(** ** [Hydrate] on callbacks and on defined types *)

(** On a destination whose layers are all allocated, [tempValue] changes
    nothing, and what remains of [Hydrate] is the type switch on the last
    pointer and the walk back. *)
Lemma Hydrate_allocated E um σ t l lf raw :
  handle_ok σ (AVal (TPtr t) (VPtr (Some l))) = true →
  target (cells σ) t l = Some lf →
  HydrateWith E um (AVal (TPtr t) (VPtr (Some l))) raw σ =
    (err ← hydrateValue E um (AVal (TPtr (base_type t)) (VPtr (Some lf))) raw;
     match err with
     | Some err => mret (Some (wrap_error (AVal (TPtr t) (VPtr (Some l))) err))
     | None =>
         err ← assignThroughChain (AVal (TPtr (base_type t)) (VPtr (Some lf)))
                 (RV (TPtr t) (Direct (VPtr (Some l))) :: path (cells σ) t l);
         match err with
         | Some err => mret (Some (wrap_error (AVal (TPtr t) (VPtr (Some l))) err))
         | None => mret None
         end
     end) σ.
Proof.
  intros Hok Ht. unfold HydrateWith. rewrite bind_run.
  rewrite (tempValue_handle _ _ _ Hok), (resolve_target _ _ _ _ Ht).
  by rewrite with_cells_id.
Qed.

(** The walk back after a method or callback that kept the pointers of the
    destination. *)
Lemma assignThroughChain_kept σ σ1 t l lf :
  target (cells σ) t l = Some lf →
  keeps (cells σ) (cells σ1) →
  assignThroughChain (AVal (TPtr (base_type t)) (VPtr (Some lf)))
    (RV (TPtr t) (Direct (VPtr (Some l))) :: path (cells σ) t l) σ1
  = Done None σ1.
Proof.
  intros Ht Hk. destruct (target_keeps t _ _ l lf Hk Ht) as [Ht1 <-].
  destruct σ1 as [cs1 ws1]. by apply assignThroughChain_noop.
Qed.

Lemma keeps_refl cs : keeps cs cs.
Proof. intros l t v H. eauto. Qed.

(** X5: through a pointer to an [OnSetBoolFunc], [Hydrate] parses the text
    as a bool before anything is called.  Text that is no bool gives the
    error of [strconv.ParseBool], wrapped, with the store as it was and the
    callback not called; text that is a bool gives what the callback returns
    for the parsed value, its error wrapped. *)
Theorem X5_OnSetBoolFunc_parses_before_calling (E : Env) (σ : store) (t : type)
    (l lf : loc) (id : nat) (raw : string) :
  base_type t = TOnSetBoolFunc →
  dest σ (AVal (TPtr t) (VPtr (Some l))) = Some lf →
  cells σ !! lf = Some (TOnSetBoolFunc, VFunc (Some id)) →
  match ParseBool raw with
  | inr err =>
      Hydrate E (AVal (TPtr t) (VPtr (Some l))) raw σ
        = Done (Some (wrap_error (AVal (TPtr t) (VPtr (Some l))) err)) σ
  | inl b =>
      ∀ res σ1,
        call_bool E id b σ = Done res σ1 →
        keeps (cells σ) (cells σ1) →
        Hydrate E (AVal (TPtr t) (VPtr (Some l))) raw σ
          = Done (wrap_error (AVal (TPtr t) (VPtr (Some l))) <$> res) σ1
  end.
Proof.
  intros Hb Hd Hlf. simpl in Hd.
  assert (Hok : handle_ok σ (AVal (TPtr t) (VPtr (Some l))) = true).
  { apply (target_chain_ok t _ l lf (VFunc (Some id)) Hd); by rewrite Hb. }
  unfold Hydrate. rewrite (Hydrate_allocated _ _ _ _ _ _ _ Hok Hd), Hb.
  cbn [hydrateValue]. unfold OnSetBoolFunc_OnSet. cbn [deref]. mrun.
  rewrite (load_At _ _ _ _ Hlf).
  destruct (ParseBool raw) as [b|err]; mrun; [|done].
  intros res σ1 Hcall Hk. rewrite Hcall. destruct res as [e|]; mrun; [done|].
  rewrite <-Hb. by rewrite (assignThroughChain_kept σ σ1 t l lf Hd Hk).
Qed.

Lemma X5_OnSetBoolFunc_parses_before_calling_witness :
  Hydrate (plainEnv Arch64) (AVal (TPtr TOnSetBoolFunc) (VPtr (Some 0))) "yes"
    (mkStore [(TOnSetBoolFunc, VFunc (Some 3))] [])
  = Done (Some (wrap_error (AVal (TPtr TOnSetBoolFunc) (VPtr (Some 0)))
                  (ErrSyntax "ParseBool" "yes")))
      (mkStore [(TOnSetBoolFunc, VFunc (Some 3))] []).
Proof.
  exact (X5_OnSetBoolFunc_parses_before_calling (plainEnv Arch64)
           (mkStore [(TOnSetBoolFunc, VFunc (Some 3))] [])
           TOnSetBoolFunc 0 0 3 "yes" eq_refl eq_refl eq_refl).
Defined.

(** X6: through a pointer to an [OnSetFunc], [Hydrate] hands the text to the
    callback as it is, and returns what the callback returns, its error
    wrapped. *)
Theorem X6_OnSetFunc_gets_the_raw_text (E : Env) (σ σ1 : store) (t : type)
    (l lf : loc) (id : nat) (raw : string) (res : option error) :
  base_type t = TOnSetFunc →
  dest σ (AVal (TPtr t) (VPtr (Some l))) = Some lf →
  cells σ !! lf = Some (TOnSetFunc, VFunc (Some id)) →
  call_string E id raw σ = Done res σ1 →
  keeps (cells σ) (cells σ1) →
  Hydrate E (AVal (TPtr t) (VPtr (Some l))) raw σ
    = Done (wrap_error (AVal (TPtr t) (VPtr (Some l))) <$> res) σ1.
Proof.
  intros Hb Hd Hlf Hcall Hk. simpl in Hd.
  assert (Hok : handle_ok σ (AVal (TPtr t) (VPtr (Some l))) = true).
  { apply (target_chain_ok t _ l lf (VFunc (Some id)) Hd); by rewrite Hb. }
  unfold Hydrate. rewrite (Hydrate_allocated _ _ _ _ _ _ _ Hok Hd), Hb.
  cbn [hydrateValue]. unfold OnSetFunc_OnSet. cbn [deref]. mrun.
  rewrite (load_At _ _ _ _ Hlf). mrun.
  rewrite Hcall. destruct res as [e|]; mrun; [done|].
  rewrite <-Hb. by rewrite (assignThroughChain_kept σ σ1 t l lf Hd Hk).
Qed.

Lemma X6_OnSetFunc_gets_the_raw_text_witness :
  Hydrate (plainEnv Arch64) (AVal (TPtr (TPtr TOnSetFunc)) (VPtr (Some 0))) "a,b"
    (mkStore [(TPtr TOnSetFunc, VPtr (Some 1)); (TOnSetFunc, VFunc (Some 3))] [])
  = Done (wrap_error (AVal (TPtr (TPtr TOnSetFunc)) (VPtr (Some 0))) <$> None)
      (mkStore [(TPtr TOnSetFunc, VPtr (Some 1)); (TOnSetFunc, VFunc (Some 3))] []).
Proof.
  apply (X6_OnSetFunc_gets_the_raw_text (plainEnv Arch64)
           (mkStore [(TPtr TOnSetFunc, VPtr (Some 1)); (TOnSetFunc, VFunc (Some 3))] [])
           (mkStore [(TPtr TOnSetFunc, VPtr (Some 1)); (TOnSetFunc, VFunc (Some 3))] [])
           (TPtr TOnSetFunc) 0 1 3 "a,b" None); try reflexivity.
  apply keeps_refl.
Defined.

Lemma Hydrate_nil_callback (E : Env) (σ : store) (t : type) (l : loc)
    (raw : string) :
  handle_ok σ (AVal (TPtr t) (VPtr (Some l))) = true →
  terminal (cells σ) (TPtr t) (VPtr (Some l)) = VFunc None →
  base_type t = TOnSetFunc
  ∨ (base_type t = TOnSetBoolFunc ∧ ∃ b, ParseBool raw = inl b) →
  Hydrate E (AVal (TPtr t) (VPtr (Some l))) raw σ
    = Panic "invalid memory address or nil pointer dereference".
Proof.
  intros Hok Hterm Hb. unfold Hydrate, HydrateWith. rewrite bind_run.
  rewrite (tempValue_handle _ _ _ Hok).
  unfold handle_ok in Hok. cbn [chain_ok] in Hok. cbn [terminal] in Hterm.
  destruct (cells σ !! l) as [[t0 v0]|] eqn:Hl; [|done].
  apply andb_prop in Hok as [Ht Hok]. apply bool_decide_eq_true in Ht. subst t0.
  pose proof (resolve_spec t _ l v0 Hl Hok) as Hspec.
  destruct (resolve t (cells σ) l) as [[cs2 lf] chain].
  destruct Hspec as (_ & _ & _ & Hx). rewrite Hterm in Hx.
  mrun. destruct Hb as [Hb|(Hb & b & Hp)]; rewrite Hb in Hx |- *;
    cbn [hydrateValue]; [unfold OnSetFunc_OnSet|unfold OnSetBoolFunc_OnSet];
    cbn [deref]; mrun;
    rewrite (load_At (with_cells σ cs2) lf _ _ Hx); [done|by rewrite Hp].
Qed.

(** X7: a callback that is nil makes [Hydrate] panic when it comes to call
    it: through a pointer to a nil [OnSetFunc] for every text, through a
    pointer to a nil [OnSetBoolFunc] for every text that is a bool.  A nil
    layer on the way is allocated first and holds a nil callback, so this
    includes destinations such as a nil [*OnSetFunc] passed by address. *)
Theorem X7_nil_callback_panics (E : Env) (σ : store) (t : type) (l : loc)
    (raw : string) :
  handle_ok σ (AVal (TPtr t) (VPtr (Some l))) = true →
  terminal (cells σ) (TPtr t) (VPtr (Some l)) = VFunc None →
  base_type t = TOnSetFunc
  ∨ (base_type t = TOnSetBoolFunc ∧ ∃ b, ParseBool raw = inl b) →
  ∃ msg, Hydrate E (AVal (TPtr t) (VPtr (Some l))) raw σ = Panic msg.
Proof.
  intros Hok Hterm Hb. eexists. by apply Hydrate_nil_callback.
Qed.

Lemma X7_nil_callback_panics_witness :
  ∃ msg,
    Hydrate (plainEnv Arch64) (AVal (TPtr (TPtr TOnSetBoolFunc)) (VPtr (Some 0)))
      "true" (mkStore [(TPtr TOnSetBoolFunc, VPtr None)] [])
    = Panic msg.
Proof.
  apply (X7_nil_callback_panics (plainEnv Arch64)
           (mkStore [(TPtr TOnSetBoolFunc, VPtr None)] [])
           (TPtr TOnSetBoolFunc) 0 "true"); try reflexivity.
  right. split; [reflexivity|]. by exists true.
Defined.



(** X9: which method of a defined type [Hydrate] calls.  When the pointer
    type does not implement [error], it is [UnmarshalText] if the type has
    [UnmarshalText] and [MarshalText]; otherwise [Set] if it has [Set] and
    [String]; otherwise [OnSet] if it has [OnSet] and [IsBool].  The method
    gets the last pointer of the chain and the text as it is, and its error
    is returned wrapped. *)
Theorem X9_method_called_on_defined_type (E : Env) (σ σ1 : store) (t : type)
    (l lf : loc) (n : string) (raw : string)
    (f : option loc → string → M (option error)) (res : option error) :
  handle_ok σ (AVal (TPtr t) (VPtr (Some l))) = true →
  base_type t = TNamed n →
  dest σ (AVal (TPtr t) (VPtr (Some l))) = Some lf →
  has_Error (methods E n) = false →
  (UnmarshalText_m (methods E n) = Some f
     ∧ is_Some (MarshalText_m (methods E n)))
  ∨ (TextMarshalUnmarshaler (methods E n) = None
     ∧ Set_m (methods E n) = Some f ∧ is_Some (String_m (methods E n)))
  ∨ (TextMarshalUnmarshaler (methods E n) = None
     ∧ StringSetter (methods E n) = None
     ∧ OnSet_m (methods E n) = Some f ∧ is_Some (IsBool_m (methods E n))) →
  f (Some lf) raw σ = Done res σ1 →
  keeps (cells σ) (cells σ1) →
  Hydrate E (AVal (TPtr t) (VPtr (Some l))) raw σ
    = Done (wrap_error (AVal (TPtr t) (VPtr (Some l))) <$> res) σ1.
Proof.
  intros Hok Hb Hd He Hsel Hcall Hk. simpl in Hd.
  unfold Hydrate. rewrite (Hydrate_allocated _ _ _ _ _ _ _ Hok Hd), Hb.
  cbn [hydrateValue]. rewrite He.
  assert (Hrun :
    match TextMarshalUnmarshaler (methods E n), StringSetter (methods E n),
          OnSetter (methods E n) with
    | Some (unmarshal, _), _, _ => unmarshal (Some lf) raw
    | None, Some set, _ => set (Some lf) raw
    | None, None, Some onset => onset (Some lf) raw
    | None, None, None => (mret (Some ErrTypeUnsupported) : M (option error))
    end σ = Done res σ1).
  { destruct Hsel as [(Hu & [m Hm])|[(Htmu & Hs & [st Hst])|(Htmu & Hss & Ho & [ib Hib])]].
    - unfold TextMarshalUnmarshaler. by rewrite Hu, Hm.
    - rewrite Htmu. unfold StringSetter. by rewrite Hs, Hst.
    - rewrite Htmu, Hss. unfold OnSetter. by rewrite Ho, Hib. }
  mrun. rewrite Hrun. destruct res as [e|]; mrun; [done|].
  rewrite <-Hb. by rewrite (assignThroughChain_kept σ σ1 t l lf Hd Hk).
Qed.

Lemma X9_method_called_on_defined_type_witness :
  Hydrate setter_type_env (AVal (TPtr (TNamed "T")) (VPtr (Some 0))) "x"
    (mkStore [(TNamed "T", VStruct 0)] [])
  = Done (wrap_error (AVal (TPtr (TNamed "T")) (VPtr (Some 0))) <$> None)
      (mkStore [(TNamed "T", VStruct 1)] []).
Proof.
  apply (X9_method_called_on_defined_type setter_type_env
           (mkStore [(TNamed "T", VStruct 0)] [])
           (mkStore [(TNamed "T", VStruct 1)] []) (TNamed "T") 0 0 "T" "x"
           (λ p raw, assign p (TNamed "T", VStruct 1);; mret None) None);
    try reflexivity.
  - right. left. split; [reflexivity|]. split; [reflexivity|]. by eexists.
  - intros l t v Hl. destruct l as [|l]; [|done].
    injection Hl as <- <-. exists (VStruct 1). split; [done|]. by intros [t' ?].
Defined.

(** ** [Slice]: destinations that cannot be filled *)

(** X10: a [Slice] made from a slice passed by value cannot be filled: the
    first call of [UnmarshalText] with text that is not empty panics in
    [setValue], which calls [Elem] on a value that is no pointer. *)
Theorem X10_slice_by_value_cannot_be_filled (E : Env) (σ : store) (r : nat)
    (s : Slice) (te : type) (v : value) (text : string) :
  wrappers σ !! r = Some s →
  ptrValue s = AVal (TSlice te) v →
  started s = false →
  String.length text ≠ 0 →
  ∃ msg, UnmarshalText E r text σ = Panic msg.
Proof.
  intros Hr Hp Hst Hlen.
  unfold UnmarshalText, UnmarshalTextWith. rewrite decide_False by done.
  mrun. rewrite (get_wrapper_run _ _ _ Hr). mrun.
  rewrite Hp. cbn [ValueOf ptr_depth type_depth unmarshal_loop]. mrun.
  cbn [KindOf type_kind]. rewrite decide_False by (by intros []).
  rewrite Hst. cbn [negb orb]. mrun. cbn [TypeOf]. mrun.
  unfold setValue, pointerLevels. mrun.
  rewrite (get_wrapper_run _ _ _ Hr). mrun.
  rewrite (get_wrapper_run _ _ _ Hr). mrun.
  rewrite Hp. cbn [ValueOf ptr_depth type_depth pointerLevels_loop]. mrun.
  cbn [Nat.sub Elem_times]. mrun. cbn [Elem]. by eexists.
Qed.

Lemma X10_slice_by_value_cannot_be_filled_witness :
  ∃ msg,
    UnmarshalText (plainEnv Arch64) 0 "1"
      (mkStore [] [MakeSlice (AVal (TSlice (TBasic BInt)) (VSlice (Some [VInt 7])))])
    = Panic msg.
Proof.
  apply (X10_slice_by_value_cannot_be_filled (plainEnv Arch64)
           (mkStore [] [MakeSlice (AVal (TSlice (TBasic BInt)) (VSlice (Some [VInt 7])))])
           0 (MakeSlice (AVal (TSlice (TBasic BInt)) (VSlice (Some [VInt 7]))))
           (TBasic BInt) (VSlice (Some [VInt 7])) "1"); done.
Defined.

(** X11: when the chain of a [Slice] does not end in a slice,
    [UnmarshalText] with text that is not empty returns the error
    "contained value is not a slice"; the wrapper is as it was ([started]
    is not set), but the nil layers of the chain have been allocated on the
    way. *)
Theorem X11_not_a_slice_is_refused_after_allocating (E : Env) (σ : store)
    (r : nat) (s : Slice) (t : type) (l : loc) (text : string) :
  wrappers σ !! r = Some s →
  ptrValue s = AVal (TPtr t) (VPtr (Some l)) →
  handle_ok σ (ptrValue s) = true →
  type_kind (base_type t) ≠ SliceKind →
  String.length text ≠ 0 →
  ∃ cs',
    UnmarshalText E r text σ = Done (Some errNotSlice) (with_cells σ cs')
    ∧ grows (cells σ) cs'
    ∧ is_Some (target cs' t l).
Proof.
  intros Hr Hp Hok Hk Hlen.
  destruct σ as [cs ws]. cbn [wrappers cells] in *.
  rewrite Hp in Hok. unfold handle_ok in Hok. cbn [chain_ok cells] in Hok.
  destruct (cs !! l) as [[t0 v0]|] eqn:Hl; [|done].
  apply andb_prop in Hok as [Ht0 Hok]. apply bool_decide_eq_true in Ht0. subst t0.
  unfold UnmarshalText, UnmarshalTextWith. rewrite decide_False by done.
  mrun. rewrite (get_wrapper_run (mkStore cs ws) _ _ Hr). mrun.
  rewrite Hp. cbn [ValueOf ptr_depth type_depth unmarshal_loop KindOf type_kind].
  rewrite decide_True by done. mrun. cbn [IsNil Elem load]. mrun.
  rewrite (unmarshal_loop_At t cs ws l v0 Hl Hok).
  pose proof (resolve_spec t cs l v0 Hl Hok) as Hspec.
  destruct (resolve t cs l) as [[cs2 lf] chain].
  destruct Hspec as (Hg & Htg & _ & _).
  cbn [KindOf]. rewrite decide_True by done. mrun.
  exists cs2. split; [done|]. split; [done|]. by exists lf.
Qed.

Lemma X11_not_a_slice_is_refused_after_allocating_witness :
  ∃ cs',
    UnmarshalText (plainEnv Arch64) 0 "1"
      (mkStore [(TPtr (TBasic BInt), VPtr None)]
               [MakeSlice (AVal (TPtr (TPtr (TBasic BInt))) (VPtr (Some 0)))])
    = Done (Some errNotSlice)
        (with_cells
           (mkStore [(TPtr (TBasic BInt), VPtr None)]
                    [MakeSlice (AVal (TPtr (TPtr (TBasic BInt))) (VPtr (Some 0)))])
           cs')
    ∧ grows [(TPtr (TBasic BInt), VPtr None)] cs'
    ∧ is_Some (target cs' (TPtr (TBasic BInt)) 0).
Proof.
  apply (X11_not_a_slice_is_refused_after_allocating (plainEnv Arch64)
           (mkStore [(TPtr (TBasic BInt), VPtr None)]
                    [MakeSlice (AVal (TPtr (TPtr (TBasic BInt))) (VPtr (Some 0)))])
           0 (MakeSlice (AVal (TPtr (TPtr (TBasic BInt))) (VPtr (Some 0))))
           (TPtr (TBasic BInt)) 0 "1"); done.
Defined.

(** ** [Slice]: separators only, and replacing *)

Lemma convert_chunks_empty E b chunks :
  Forall (λ c, c = "") chunks → convert_chunks E b chunks = ([], None).
Proof.
  induction 1 as [|c chunks -> _ IH]; [done|].
  cbn [convert_chunks]. by rewrite decide_True.
Qed.

(** X12: text that holds separators only appends nothing and gives no
    error, but it counts as a call: [started] is set, and on a [Slice] not
    yet started (or with [NonAccum]) the sequence found is replaced by the
    empty one. *)
Theorem X12_separators_only (E : Env) (σ : store) (r : nat) (s : Slice)
    (t : type) (l : loc) (b : basic) (text : string) :
  wrappers σ !! r = Some s →
  ptrValue s = AVal (TPtr t) (VPtr (Some l)) →
  handle_ok σ (ptrValue s) = true →
  base_type t = TSlice (TBasic b) →
  String.length text ≠ 0 →
  Forall (λ c, c = "") (Split text (Separator s)) →
  ∃ σ',
    UnmarshalText E r text σ = Done None σ'
    ∧ wrappers σ' !! r = Some (set_started s true)
    ∧ contents σ' (ptrValue s)
      = if negb (started s) || NonAccum s then [] else contents σ (ptrValue s).
Proof.
  intros Hr Hp Hok Hb Hlen Hall.
  destruct (UnmarshalText_basic E σ r s t l b text Hr Hp Hok Hb Hlen)
    as (cs' & res & Hrun & Hc & Hf & _).
  rewrite (convert_chunks_empty _ _ _ Hall) in Hc, Hf. simpl in Hf. subst res.
  eexists. split; [exact Hrun|]. split.
  - apply list_lookup_insert_eq. by eapply lookup_lt_Some.
  - rewrite Hc. cbn [fst]. by rewrite app_nil_r.
Qed.

Lemma X12_separators_only_witness :
  ∃ σ',
    UnmarshalText (plainEnv Arch64) 0 ",,"
      (mkStore [(TSlice (TBasic BInt), VSlice (Some [VInt 7]))]
               [MakeSlice (AVal (TPtr (TSlice (TBasic BInt))) (VPtr (Some 0)))])
    = Done None σ'
    ∧ wrappers σ' !! 0
      = Some (set_started
                (MakeSlice (AVal (TPtr (TSlice (TBasic BInt))) (VPtr (Some 0)))) true)
    ∧ contents σ' (AVal (TPtr (TSlice (TBasic BInt))) (VPtr (Some 0))) = [].
Proof.
  apply (X12_separators_only (plainEnv Arch64)
           (mkStore [(TSlice (TBasic BInt), VSlice (Some [VInt 7]))]
                    [MakeSlice (AVal (TPtr (TSlice (TBasic BInt))) (VPtr (Some 0)))])
           0 (MakeSlice (AVal (TPtr (TSlice (TBasic BInt))) (VPtr (Some 0))))
           (TSlice (TBasic BInt)) 0 BInt ",,"); try done.
  vm_compute. by repeat constructor.
Defined.

(** X13: with [NonAccum] set, every call of [UnmarshalText] with text that
    is not empty replaces the sequence: after two calls the contents are
    what the chunks of the second text convert to, whatever the first call
    left, and also when the first call failed. *)
Theorem X13_NonAccum_replaces (E : Env) (σ : store) (r : nat) (s : Slice)
    (t : type) (l : loc) (b : basic) (text1 text2 : string) :
  wrappers σ !! r = Some s →
  ptrValue s = AVal (TPtr t) (VPtr (Some l)) →
  handle_ok σ (ptrValue s) = true →
  base_type t = TSlice (TBasic b) →
  NonAccum s = true →
  String.length text1 ≠ 0 →
  String.length text2 ≠ 0 →
  ∃ res1 σ1 res2 σ2,
    UnmarshalText E r text1 σ = Done res1 σ1
    ∧ UnmarshalText E r text2 σ1 = Done res2 σ2
    ∧ contents σ2 (ptrValue s)
      = (convert_chunks E b (Split text2 (Separator s))).1.
Proof.
  intros Hr Hp Hok Hb Hna Hlen1 Hlen2.
  destruct (UnmarshalText_basic E σ r s t l b text1 Hr Hp Hok Hb Hlen1)
    as (cs1 & res1 & Hrun1 & _ & _ & Hok1).
  set (σ1 := mkStore cs1 (<[r := set_started s true]> (wrappers σ))) in *.
  assert (Hr1 : wrappers σ1 !! r = Some (set_started s true)).
  { apply list_lookup_insert_eq. by eapply lookup_lt_Some. }
  destruct (UnmarshalText_basic E σ1 r (set_started s true) t l b text2
              Hr1 Hp Hok1 Hb Hlen2)
    as (cs2 & res2 & Hrun2 & Hc2 & _ & _).
  exists res1, σ1, res2. eexists. split; [done|]. split; [exact Hrun2|].
  cbn [ptrValue set_started Separator] in Hc2. rewrite Hc2.
  unfold prior_contents. cbn [started NonAccum set_started]. by rewrite Hna.
Qed.

Lemma X13_NonAccum_replaces_witness :
  ∃ res1 σ1 res2 σ2,
    UnmarshalText (plainEnv Arch64) 0 "1,x"
      (mkStore [(TSlice (TBasic BInt), VSlice None)]
         [mkSlice (AVal (TPtr (TSlice (TBasic BInt))) (VPtr (Some 0)))
            false "" false "," true])
    = Done res1 σ1
    ∧ UnmarshalText (plainEnv Arch64) 0 "3" σ1 = Done res2 σ2
    ∧ contents σ2 (AVal (TPtr (TSlice (TBasic BInt))) (VPtr (Some 0)))
      = (convert_chunks (plainEnv Arch64) BInt (Split "3" ",")).1.
Proof.
  apply (X13_NonAccum_replaces (plainEnv Arch64)
           (mkStore [(TSlice (TBasic BInt), VSlice None)]
              [mkSlice (AVal (TPtr (TSlice (TBasic BInt))) (VPtr (Some 0)))
                 false "" false "," true])
           0 (mkSlice (AVal (TPtr (TSlice (TBasic BInt))) (VPtr (Some 0)))
                false "" false "," true)
           (TSlice (TBasic BInt)) 0 BInt "1,x" "3"); done.
Defined.

(** ** [Slice]: rendering, and reading the rendering back *)

Lemma IsNil_load σ t p v :
  load p σ = Done v σ →
  IsNil (RV (TPtr t) p) σ =
    Done (match v with VPtr None => true | _ => false end) σ.
Proof.
  intros H. unfold IsNil. rewrite bind_run, H.
  by destruct v as [| | | |[]| | |].
Qed.

Lemma Elem_load σ t p v :
  load p σ = Done v σ →
  Elem (RV (TPtr t) p) σ =
    Done (match v with VPtr (Some l') => RV t (At l') | _ => RInvalid end) σ.
Proof.
  intros H. unfold Elem. rewrite bind_run, H.
  by destruct v as [| | | |[]| | |].
Qed.

Lemma marshal_loop_full t : ∀ σ p v,
  load p σ = Done v σ →
  chain_ok (cells σ) t v = true →
  has_nil_layer (cells σ) t v = false →
  ∃ p', marshal_loop (type_depth t) (RV t p) σ
          = Done (Some (RV (base_type t) p')) σ
        ∧ load p' σ = Done (terminal (cells σ) t v) σ.
Proof.
  induction t as [b|t IH|t _|n| | |]; intros σ p v Hp Hok Hnil;
    try (exists p; by split).
  cbn [chain_ok has_nil_layer terminal] in *.
  destruct v as [| | | |[l|]| | |]; try done.
  destruct (cells σ !! l) as [[t0 v0]|] eqn:Hl; [|done].
  apply andb_prop in Hok as [Ht Hok]. apply bool_decide_eq_true in Ht. subst t0.
  destruct (IH σ (At l) v0) as (p' & Hrun & Hload); [by eapply load_At|done..|].
  exists p'. split; [|done].
  cbn [type_depth marshal_loop KindOf type_kind base_type].
  rewrite decide_True by done. mrun.
  rewrite (IsNil_load _ _ _ _ Hp). mrun.
  by rewrite (Elem_load _ _ _ _ Hp).
Qed.

Lemma sprint_elems_basic E b elems σ :
  sprint_elems E (TBasic b) elems σ = Done (map (sprint_basic E b) elems) σ.
Proof.
  induction elems as [|x rest IH]; [done|].
  cbn [sprint_elems Sprint map]. mrun. rewrite IH. by mrun.
Qed.

Lemma MarshalText_full (E : Env) (σ : store) (r : nat)
    (s : Slice) (t : type) (v : value) (b : basic) :
  wrappers σ !! r = Some s →
  ptrValue s = AVal t v →
  chain_ok (cells σ) t v = true →
  has_nil_layer (cells σ) t v = false →
  base_type t = TSlice (TBasic b) →
  MarshalText E r σ
    = Done (Some (Join (map (sprint_basic E b) (contents σ (ptrValue s)))
                    (Separator s)), None) σ.
Proof.
  intros Hr Hp Hok Hnil Hb.
  unfold MarshalText. mrun. rewrite (get_wrapper_run _ _ _ Hr). mrun.
  rewrite Hp. cbn [ValueOf ptr_depth contents].
  destruct (marshal_loop_full t σ (Direct v) v eq_refl Hok Hnil)
    as (p' & -> & Hload).
  pose proof (terminal_shape t _ v Hok) as Hshape.
  rewrite Hb in Hshape |- *. mrun. rewrite Hload.
  destruct (terminal (cells σ) t v) as [| | | | |o| |]; try done.
  mrun. rewrite sprint_elems_basic. by mrun.
Qed.

(** X14: when no layer of the chain is nil, [MarshalText] renders the
    elements of a sequence of a built-in kind as [fmt.Sprint] prints them,
    joined by the separator of the [Slice], in order; the empty sequence,
    nil or not, gives the empty text, which is not nil.  This holds also
    for a slice that the [Slice] holds by value. *)
Theorem X14_MarshalText_joins_the_elements (E : Env) (σ : store) (r : nat)
    (s : Slice) (t : type) (v : value) (b : basic) :
  wrappers σ !! r = Some s →
  ptrValue s = AVal t v →
  chain_ok (cells σ) t v = true →
  has_nil_layer (cells σ) t v = false →
  base_type t = TSlice (TBasic b) →
  MarshalText E r σ
    = Done (Some (Join (map (sprint_basic E b) (contents σ (ptrValue s)))
                    (Separator s)), None) σ.
Proof. apply MarshalText_full. Qed.

Lemma X14_MarshalText_joins_the_elements_witness :
  MarshalText (plainEnv Arch64) 0
    (mkStore [(TSlice (TBasic BBool), VSlice (Some [VBool true; VBool false]))]
       [mkSlice (AVal (TPtr (TSlice (TBasic BBool))) (VPtr (Some 0)))
          false "" false ";" false])
  = Done (Some (Join (map (sprint_basic (plainEnv Arch64) BBool)
                        [VBool true; VBool false]) ";"), None)
      (mkStore [(TSlice (TBasic BBool), VSlice (Some [VBool true; VBool false]))]
         [mkSlice (AVal (TPtr (TSlice (TBasic BBool))) (VPtr (Some 0)))
            false "" false ";" false]).
Proof.
  apply (X14_MarshalText_joins_the_elements (plainEnv Arch64)
           (mkStore [(TSlice (TBasic BBool), VSlice (Some [VBool true; VBool false]))]
              [mkSlice (AVal (TPtr (TSlice (TBasic BBool))) (VPtr (Some 0)))
                 false "" false ";" false])
           0 (mkSlice (AVal (TPtr (TSlice (TBasic BBool))) (VPtr (Some 0)))
                false "" false ";" false)
           (TPtr (TSlice (TBasic BBool))) (VPtr (Some 0)) BBool); reflexivity.
Defined.

Lemma append_nil_l (s : string) : "" +:+ s = s.
Proof. done. Qed.

Lemma append_cons_l c (s1 s2 : string) : String c s1 +:+ s2 = String c (s1 +:+ s2).
Proof. done. Qed.

Lemma HasPrefix_nil s : HasPrefix s "" = true.
Proof. by destruct s. Qed.

Lemma splitLoop_char c : ∀ x cur rest,
  Contains x (String c "") = false →
  splitLoop (String c "") 0 (x +:+ String c rest) cur
    = (cur +:+ x) :: splitLoop (String c "") 0 rest "".
Proof.
  induction x as [|a x IH]; intros cur rest Hc.
  - rewrite append_nil_l, append_empty_r. cbn [splitLoop HasPrefix].
    rewrite bool_decide_eq_true_2 by done. by rewrite HasPrefix_nil.
  - cbn [Contains HasPrefix] in Hc. apply orb_false_elim in Hc as [Hp Hc].
    rewrite HasPrefix_nil, andb_true_r in Hp.
    rewrite append_cons_l. cbn [splitLoop HasPrefix].
    rewrite Hp. cbn [andb]. rewrite (IH _ _ Hc). by rewrite append_char_assoc.
Qed.

Lemma Split_Join c : ∀ xs,
  xs ≠ [] →
  Forall (λ x, Contains x (String c "") = false) xs →
  Split (Join xs (String c "")) (String c "") = xs.
Proof.
  unfold Split. induction xs as [|x [|y rest] IH]; intros Hne Hall; [done| |].
  - apply Forall_cons in Hall as [Hx _]. cbn [Join].
    by rewrite (splitLoop_no_sep _ _ _ Hx).
  - apply Forall_cons in Hall as [Hx Hall].
    change (Join (x :: y :: rest) (String c ""))
      with (x +:+ String c (Join (y :: rest) (String c ""))).
    rewrite (splitLoop_char c x "" _ Hx). rewrite IH by done. done.
Qed.

Lemma Join_length x xs sep :
  x ≠ "" → String.length (Join (x :: xs) sep) ≠ 0.
Proof.
  intros Hx. destruct x as [|a x]; [done|]. by destruct xs.
Qed.

Lemma convert_chunks_rendered E b elems :
  Forall (λ x, parseBasic E b (sprint_basic E b x) = inl x
               ∧ sprint_basic E b x ≠ "") elems →
  convert_chunks E b (map (sprint_basic E b) elems) = (elems, None).
Proof.
  induction 1 as [|x elems [Hp Hne] _ IH]; [done|].
  cbn [map convert_chunks]. rewrite decide_False.
  - by rewrite Hp, IH.
  - by destruct (sprint_basic E b x).
Qed.

(** X15: reading back what [MarshalText] rendered.  For a sequence that is
    not empty, a separator of one character, and elements whose rendering
    reads back as the element, is not empty and does not hold the
    separator: the text that [MarshalText] gives, passed to [UnmarshalText]
    on a [Slice] that replaces (not yet started, or [NonAccum]), leaves the
    same elements in the same order. *)
Theorem X15_rendered_sequence_reads_back (E : Env) (σ : store) (r : nat)
    (s : Slice) (t : type) (l : loc) (b : basic) (c : ascii) :
  wrappers σ !! r = Some s →
  ptrValue s = AVal (TPtr t) (VPtr (Some l)) →
  handle_ok σ (ptrValue s) = true →
  has_nil_layer (cells σ) (TPtr t) (VPtr (Some l)) = false →
  base_type t = TSlice (TBasic b) →
  Separator s = String c "" →
  negb (started s) || NonAccum s = true →
  contents σ (ptrValue s) ≠ [] →
  Forall (λ x, parseBasic E b (sprint_basic E b x) = inl x
               ∧ sprint_basic E b x ≠ ""
               ∧ Contains (sprint_basic E b x) (Separator s) = false)
         (contents σ (ptrValue s)) →
  ∃ text σ',
    MarshalText E r σ = Done (Some text, None) σ
    ∧ UnmarshalText E r text σ = Done None σ'
    ∧ contents σ' (ptrValue s) = contents σ (ptrValue s).
Proof.
  intros Hr Hp Hok Hnil Hb Hsep Hrep Hne Hall.
  pose proof Hok as Hok'. rewrite Hp in Hok'. unfold handle_ok in Hok'.
  set (elems := contents σ (ptrValue s)) in *.
  set (text := Join (map (sprint_basic E b) elems) (Separator s)).
  assert (Hm : MarshalText E r σ = Done (Some text, None) σ).
  { unfold text, elems. by apply (MarshalText_full E σ r s (TPtr t) (VPtr (Some l)) b). }
  assert (Hlen : String.length text ≠ 0).
  { unfold text. destruct elems as [|x xs]; [done|].
    apply Forall_cons in Hall as [(_ & Hx & _) _]. by apply Join_length. }
  assert (Hsplit : Split text (Separator s) = map (sprint_basic E b) elems).
  { unfold text. rewrite Hsep. apply Split_Join.
    - by destruct elems.
    - rewrite Forall_map. eapply Forall_impl; [exact Hall|].
      intros x (_ & _ & Hc). by rewrite <-Hsep. }
  destruct (UnmarshalText_basic E σ r s t l b text Hr Hp Hok Hb Hlen)
    as (cs' & res & Hrun & Hc & Hf & _).
  rewrite Hsplit in Hc, Hf.
  rewrite convert_chunks_rendered in Hc, Hf
    by (eapply Forall_impl; [exact Hall|]; by intros x (? & ? & _)).
  simpl in Hf. subst res.
  exists text. eexists. split; [done|]. split; [exact Hrun|].
  rewrite Hc. unfold prior_contents. by rewrite Hrep.
Qed.

Lemma X15_rendered_sequence_reads_back_witness :
  ∃ text σ',
    MarshalText (plainEnv Arch64) 0
      (mkStore [(TSlice (TBasic BInt), VSlice (Some [VInt 1; VInt (-2)]))]
               [MakeSlice (AVal (TPtr (TSlice (TBasic BInt))) (VPtr (Some 0)))])
    = Done (Some text, None)
        (mkStore [(TSlice (TBasic BInt), VSlice (Some [VInt 1; VInt (-2)]))]
                 [MakeSlice (AVal (TPtr (TSlice (TBasic BInt))) (VPtr (Some 0)))])
    ∧ UnmarshalText (plainEnv Arch64) 0 text
        (mkStore [(TSlice (TBasic BInt), VSlice (Some [VInt 1; VInt (-2)]))]
                 [MakeSlice (AVal (TPtr (TSlice (TBasic BInt))) (VPtr (Some 0)))])
      = Done None σ'
    ∧ contents σ' (AVal (TPtr (TSlice (TBasic BInt))) (VPtr (Some 0)))
      = [VInt 1; VInt (-2)].
Proof.
  apply (X15_rendered_sequence_reads_back (plainEnv Arch64)
           (mkStore [(TSlice (TBasic BInt), VSlice (Some [VInt 1; VInt (-2)]))]
                    [MakeSlice (AVal (TPtr (TSlice (TBasic BInt))) (VPtr (Some 0)))])
           0 (MakeSlice (AVal (TPtr (TSlice (TBasic BInt))) (VPtr (Some 0))))
           (TSlice (TBasic BInt)) 0 BInt ","%char); try done.
  repeat constructor; done.
Defined.

(** ** Describing a destination *)

Lemma elem_loop_full t : ∀ σ p v,
  load p σ = Done v σ →
  chain_ok (cells σ) t v = true →
  has_nil_layer (cells σ) t v = false →
  ∃ p', elem_loop (type_depth t) (RV t p) σ = Done (RV (base_type t) p') σ.
Proof.
  induction t as [b|t IH|t _|n| | |]; intros σ p v Hp Hok Hnil;
    try (by exists p).
  cbn [chain_ok has_nil_layer] in *.
  destruct v as [| | | |[l|]| | |]; try done.
  destruct (cells σ !! l) as [[t0 v0]|] eqn:Hl; [|done].
  apply andb_prop in Hok as [Ht Hok]. apply bool_decide_eq_true in Ht. subst t0.
  destruct (IH σ (At l) v0) as (p' & Hrun); [by eapply load_At|done..|].
  exists p'. cbn [type_depth elem_loop KindOf type_kind base_type].
  rewrite decide_True by done. mrun.
  by rewrite (Elem_load _ _ _ _ Hp).
Qed.

Lemma elem_loop_invalid n σ : elem_loop n RInvalid σ = Done RInvalid σ.
Proof. by destruct n. Qed.

Lemma elem_loop_nil t : ∀ σ p v,
  load p σ = Done v σ →
  chain_ok (cells σ) t v = true →
  has_nil_layer (cells σ) t v = true →
  elem_loop (type_depth t) (RV t p) σ = Done RInvalid σ.
Proof.
  induction t as [b|t IH|t _|n| | |]; intros σ p v Hp Hok Hnil;
    try (by destruct v).
  cbn [chain_ok has_nil_layer] in *.
  cbn [type_depth elem_loop KindOf type_kind].
  rewrite decide_True by done. mrun. rewrite (Elem_load _ _ _ _ Hp).
  destruct v as [| | | |[l|]| | |]; try done; [|apply elem_loop_invalid].
  destruct (cells σ !! l) as [[t0 v0]|] eqn:Hl; [|done].
  apply andb_prop in Hok as [Ht Hok]. apply bool_decide_eq_true in Ht. subst t0.
  apply (IH σ (At l) v0); [by eapply load_At|done..].
Qed.

(** X16: when no layer of the chain is nil, [Slice.ValueTypeName] on a
    sequence of a built-in kind gives the name of that kind, followed by
    "(multisep:SEP)" with the separator of the [Slice] when [SplitEach] is
    set, and [Slice.IsBool] tells whether the elements are bools.  Both
    leave the store as it was. *)
Theorem X16_Slice_describes_its_elements (σ : store) (r : nat) (s : Slice)
    (t : type) (v : value) (b : basic) :
  wrappers σ !! r = Some s →
  ptrValue s = AVal t v →
  chain_ok (cells σ) t v = true →
  has_nil_layer (cells σ) t v = false →
  base_type t = TSlice (TBasic b) →
  Slice_ValueTypeName r σ
    = Done (if SplitEach s
            then basic_name b +:+ "(multisep:" +:+ Separator s +:+ ")"
            else basic_name b) σ
  ∧ Slice_IsBool r σ = Done (bool_decide (b = BBool)) σ.
Proof.
  intros Hr Hp Hok Hnil Hb.
  destruct (elem_loop_full t σ (Direct v) v eq_refl Hok Hnil) as (p' & Hloop).
  unfold Slice_ValueTypeName, Slice_IsBool. mrun.
  rewrite (get_wrapper_run _ _ _ Hr). mrun.
  rewrite Hp. cbn [ValueOf ptr_depth]. rewrite Hloop, Hb. mrun.
  split; [done|]. cbn [TypeElem]. mrun. do 2 f_equal. by destruct b.
Qed.

Lemma X16_Slice_describes_its_elements_witness :
  Slice_ValueTypeName 0
    (mkStore [(TPtr (TSlice (TBasic BBool)), VPtr (Some 1));
              (TSlice (TBasic BBool), VSlice None)]
       [mkSlice (AVal (TPtr (TPtr (TSlice (TBasic BBool)))) (VPtr (Some 0)))
          false "" true ";" false])
  = Done "bool(multisep:;)"
      (mkStore [(TPtr (TSlice (TBasic BBool)), VPtr (Some 1));
                (TSlice (TBasic BBool), VSlice None)]
         [mkSlice (AVal (TPtr (TPtr (TSlice (TBasic BBool)))) (VPtr (Some 0)))
            false "" true ";" false])
  ∧ Slice_IsBool 0
      (mkStore [(TPtr (TSlice (TBasic BBool)), VPtr (Some 1));
                (TSlice (TBasic BBool), VSlice None)]
         [mkSlice (AVal (TPtr (TPtr (TSlice (TBasic BBool)))) (VPtr (Some 0)))
            false "" true ";" false])
    = Done true
        (mkStore [(TPtr (TSlice (TBasic BBool)), VPtr (Some 1));
                  (TSlice (TBasic BBool), VSlice None)]
           [mkSlice (AVal (TPtr (TPtr (TSlice (TBasic BBool)))) (VPtr (Some 0)))
              false "" true ";" false]).
Proof.
  apply (X16_Slice_describes_its_elements
           (mkStore [(TPtr (TSlice (TBasic BBool)), VPtr (Some 1));
                     (TSlice (TBasic BBool), VSlice None)]
              [mkSlice (AVal (TPtr (TPtr (TSlice (TBasic BBool)))) (VPtr (Some 0)))
                 false "" true ";" false])
           0 (mkSlice (AVal (TPtr (TPtr (TSlice (TBasic BBool)))) (VPtr (Some 0)))
                false "" true ";" false)
           (TPtr (TPtr (TSlice (TBasic BBool)))) (VPtr (Some 0))
           BBool); reflexivity.
Defined.

(** X17: when a layer of the chain is nil, [Slice.ValueTypeName] and
    [Slice.IsBool] panic: their loops follow the nil pointer to the zero
    [reflect.Value] and ask it for its type.  So does the package's
    [ValueTypeName] on the [*Slice], which calls the method. *)
Theorem X17_Slice_description_panics_on_nil_layer (E : Env)
    (ValueTypeName_m : string → option (option loc → M string))
    (σ : store) (r : nat) (s : Slice) (t : type) (v : value) :
  wrappers σ !! r = Some s →
  ptrValue s = AVal t v →
  chain_ok (cells σ) t v = true →
  has_nil_layer (cells σ) t v = true →
  (∃ msg, Slice_ValueTypeName r σ = Panic msg)
  ∧ (∃ msg, Slice_IsBool r σ = Panic msg)
  ∧ (∃ msg, ValueTypeName E ValueTypeName_m (ASlice r) σ = Panic msg).
Proof.
  intros Hr Hp Hok Hnil.
  pose proof (elem_loop_nil t σ (Direct v) v eq_refl Hok Hnil) as Hloop.
  assert (Hn : ∃ msg, Slice_ValueTypeName r σ = Panic msg).
  { unfold Slice_ValueTypeName. mrun. rewrite (get_wrapper_run _ _ _ Hr). mrun.
    rewrite Hp. cbn [ValueOf ptr_depth]. rewrite Hloop. by eexists. }
  split; [done|]. split; [|done].
  unfold Slice_IsBool. mrun. rewrite (get_wrapper_run _ _ _ Hr). mrun.
  rewrite Hp. cbn [ValueOf ptr_depth]. rewrite Hloop. by eexists.
Qed.

Lemma X17_Slice_description_panics_on_nil_layer_witness :
  (∃ msg, Slice_ValueTypeName 0
            (mkStore [(TPtr (TSlice (TBasic BInt)), VPtr None)]
               [MakeSlice (AVal (TPtr (TPtr (TSlice (TBasic BInt)))) (VPtr (Some 0)))])
          = Panic msg)
  ∧ (∃ msg, Slice_IsBool 0
              (mkStore [(TPtr (TSlice (TBasic BInt)), VPtr None)]
                 [MakeSlice (AVal (TPtr (TPtr (TSlice (TBasic BInt)))) (VPtr (Some 0)))])
            = Panic msg)
  ∧ (∃ msg, ValueTypeName (plainEnv Arch64) (λ _, None) (ASlice 0)
              (mkStore [(TPtr (TSlice (TBasic BInt)), VPtr None)]
                 [MakeSlice (AVal (TPtr (TPtr (TSlice (TBasic BInt)))) (VPtr (Some 0)))])
            = Panic msg).
Proof.
  apply (X17_Slice_description_panics_on_nil_layer (plainEnv Arch64) (λ _, None)
           (mkStore [(TPtr (TSlice (TBasic BInt)), VPtr None)]
              [MakeSlice (AVal (TPtr (TPtr (TSlice (TBasic BInt)))) (VPtr (Some 0)))])
           0 (MakeSlice (AVal (TPtr (TPtr (TSlice (TBasic BInt)))) (VPtr (Some 0))))
           (TPtr (TPtr (TSlice (TBasic BInt)))) (VPtr (Some 0))); reflexivity.
Defined.

(** X18: for a value of a built-in kind behind any number of pointers, the
    package's [ValueTypeName] gives the name of the kind ("int", "string",
    "Duration", ...).  It looks at the type only: the answer is the same
    whether layers are nil or not, and the store is not read. *)
Theorem X18_ValueTypeName_of_built_in_kinds (E : Env)
    (ValueTypeName_m : string → option (option loc → M string))
    (σ : store) (t : type) (v : value) (b : basic) :
  base_type t = TBasic b →
  ValueTypeName E ValueTypeName_m (AVal t v) σ = Done (basic_name b) σ.
Proof.
  intros Hb. destruct t as [b0|t'|t'|n| | |]; try done.
  - by injection Hb as ->.
  - destruct t' as [b0|t''|t''|n| | |]; try done; cbn [ValueTypeName];
      try (destruct v; cbn [base_type] in Hb |- *; by rewrite Hb).
Qed.

Lemma X18_ValueTypeName_of_built_in_kinds_witness :
  ValueTypeName (plainEnv Arch64) (λ _, None)
    (AVal (TPtr (TPtr (TBasic BDuration))) (VPtr None)) (mkStore [] [])
  = Done (basic_name BDuration) (mkStore [] []).
Proof.
  apply (X18_ValueTypeName_of_built_in_kinds (plainEnv Arch64) (λ _, None)
           (mkStore [] []) (TPtr (TPtr (TBasic BDuration))) (VPtr None) BDuration).
  reflexivity.
Defined.

Lemma default_loop_marshal_loop n v : default_loop n v = marshal_loop n v.
Proof. reflexivity. Qed.

(** X19: for a value of a built-in kind behind pointers of which one is
    nil, [DefaultValueText] gives the empty text and leaves the store as it
    was; except for a nil [*time.Duration], which is taken as a
    [fmt.Stringer] and makes the call of [String] panic. *)
Theorem X19_DefaultValueText_of_nil_layers (E : Env) (σ : store) (t : type)
    (v : value) (b : basic) :
  base_type t = TBasic b →
  chain_ok (cells σ) t v = true →
  has_nil_layer (cells σ) t v = true →
  if decide (t = TPtr (TBasic BDuration))
  then ∃ msg, DefaultValueText E (AVal t v) σ = Panic msg
  else DefaultValueText E (AVal t v) σ = Done "" σ.
Proof.
  intros Hb Hok Hnil.
  assert (Hdef : DefaultValueText_default E (AVal t v) σ = Done "" σ).
  { unfold DefaultValueText_default. cbn [ValueOf ptr_depth KindOf].
    destruct t as [b0|t'|t'|n| | |]; try (by destruct v).
    cbn [type_kind]. rewrite decide_False by done. mrun.
    rewrite default_loop_marshal_loop.
    by rewrite (marshal_loop_nil (TPtr t') σ (Direct v) v eq_refl Hnil). }
  case_decide as Hd.
  - subst t. destruct v as [| | | |[l|]| | |]; try done; [|by eexists].
    simpl in Hok, Hnil. destruct (cells σ !! l) as [[t0 v0]|]; [|done].
    apply andb_prop in Hok as [_ Hok]. by destruct v0.
  - destruct t as [b0|t'|t'|n| | |]; try (by destruct v).
    destruct t' as [b0|t''|t''|n| | |]; try done;
      destruct v as [| | | |p| | |]; try done.
    destruct b0; try done.
Qed.

Lemma X19_DefaultValueText_of_nil_layers_witness :
  DefaultValueText (plainEnv Arch64)
    (AVal (TPtr (TPtr (TBasic BDuration))) (VPtr (Some 0)))
    (mkStore [(TPtr (TBasic BDuration), VPtr None)] [])
  = Done "" (mkStore [(TPtr (TBasic BDuration), VPtr None)] []).
Proof.
  apply (X19_DefaultValueText_of_nil_layers (plainEnv Arch64)
           (mkStore [(TPtr (TBasic BDuration), VPtr None)] [])
           (TPtr (TPtr (TBasic BDuration))) (VPtr (Some 0)) BDuration);
    reflexivity.
Defined.

(** ** [ConvertCompatible], and what [Hydrate] makes of its result *)

(** X20: a pointer to a sequence of a built-in kind, passed through
    [ConvertCompatible] and then to [Hydrate] with text that is not empty.
    [ConvertCompatible] makes a new [Slice] with the separator "," around
    the pointer; [Hydrate] cuts the text at each "," and leaves in the
    sequence what the chunks convert to, up to the first that fails.  The
    failure of a chunk comes back wrapped by the chunk loop and then by
    [Hydrate] for the [*Slice]. *)
Theorem X20_ConvertCompatible_then_Hydrate (E : Env) (σ : store) (l : loc)
    (b : basic) (text : string) :
  handle_ok σ (AVal (TPtr (TSlice (TBasic b))) (VPtr (Some l))) = true →
  String.length text ≠ 0 →
  ∃ res σ',
    (ConvertCompatible (Other (AVal (TPtr (TSlice (TBasic b))) (VPtr (Some l))))
       ≫= λ w, Hydrate E w text) σ
      = Done (wrap_error (ASlice (length (wrappers σ))) <$> res) σ'
    ∧ chunk_failure (TBasic b) (convert_chunks E b (Split text ",")).2 res
    ∧ contents σ' (AVal (TPtr (TSlice (TBasic b))) (VPtr (Some l)))
      = (convert_chunks E b (Split text ",")).1
    ∧ wrappers σ' !! length (wrappers σ)
      = Some (set_started
                (MakeSlice (AVal (TPtr (TSlice (TBasic b))) (VPtr (Some l)))) true).
Proof.
  intros Hok Hlen.
  set (val := AVal (TPtr (TSlice (TBasic b))) (VPtr (Some l))) in *.
  set (σ1 := mkStore (cells σ) (wrappers σ ++ [MakeSlice val])).
  assert (Hr1 : wrappers σ1 !! length (wrappers σ) = Some (MakeSlice val)).
  { cbn [σ1 wrappers]. rewrite lookup_app_r by lia. by rewrite Nat.sub_diag. }
  destruct (UnmarshalText_basic E σ1 (length (wrappers σ)) (MakeSlice val)
              (TSlice (TBasic b)) l b text Hr1 eq_refl Hok eq_refl Hlen)
    as (cs' & res & Hrun & Hc & Hf & _).
  assert (Hr' : <[length (wrappers σ) := set_started (MakeSlice val) true]>
                  (wrappers σ1) !! length (wrappers σ)
                = Some (set_started (MakeSlice val) true)).
  { apply list_lookup_insert_eq. by eapply lookup_lt_Some. }
  exists res. eexists. split; [|split; [exact Hf|split; [exact Hc|exact Hr']]].
  rewrite bind_run. unfold ConvertCompatible.
  cbn [val ValueOf KindOf type_kind]. rewrite decide_True by done.
  mrun. cbn [Elem load]. mrun. cbn [KindOf type_kind].
  rewrite decide_True by done. unfold alloc_wrapper. mrun.
  unfold get_store, put_store.
  apply (Hydrate_ASlice_run E _ text σ1 res _ Hrun). by eexists.
Qed.

Lemma X20_ConvertCompatible_then_Hydrate_witness :
  ∃ res σ',
    (ConvertCompatible (Other (AVal (TPtr (TSlice (TBasic BInt))) (VPtr (Some 0))))
       ≫= λ w, Hydrate (plainEnv Arch64) w "1,2,3")
      (mkStore [(TSlice (TBasic BInt), VSlice None)] [])
      = Done (wrap_error (ASlice 0) <$> res) σ'
    ∧ chunk_failure (TBasic BInt)
        (convert_chunks (plainEnv Arch64) BInt (Split "1,2,3" ",")).2 res
    ∧ contents σ' (AVal (TPtr (TSlice (TBasic BInt))) (VPtr (Some 0)))
      = (convert_chunks (plainEnv Arch64) BInt (Split "1,2,3" ",")).1
    ∧ wrappers σ' !! 0
      = Some (set_started
                (MakeSlice (AVal (TPtr (TSlice (TBasic BInt))) (VPtr (Some 0)))) true).
Proof.
  apply (X20_ConvertCompatible_then_Hydrate (plainEnv Arch64)
           (mkStore [(TSlice (TBasic BInt), VSlice None)] []) 0 BInt "1,2,3");
    done.
Defined.

(** X21: the callbacks that [ConvertCompatible] makes of plain functions.
    A [func(string) error] becomes an [OnSetFunc] and a [func(bool) error]
    an [OnSetBoolFunc], values that [ValueTypeName] describes as "value" and
    "bool" and for which [DefaultValueText] is empty.  Passed on to
    [Hydrate] as they are, by value, they are refused with
    [ErrTypeUnsupported] and the function is not called. *)
Theorem X21_converted_callbacks (E : Env)
    (ValueTypeName_m : string → option (option loc → M string))
    (f : option nat) (raw : string) (σ : store) :
  (ConvertCompatible (FuncStringError f) ≫= ValueTypeName E ValueTypeName_m) σ
    = Done "value" σ
  ∧ (ConvertCompatible (FuncBoolError f) ≫= ValueTypeName E ValueTypeName_m) σ
    = Done "bool" σ
  ∧ (ConvertCompatible (FuncStringError f) ≫= DefaultValueText E) σ = Done "" σ
  ∧ (ConvertCompatible (FuncBoolError f) ≫= DefaultValueText E) σ = Done "" σ
  ∧ (ConvertCompatible (FuncStringError f) ≫= λ w, Hydrate E w raw) σ
    = Done (Some (wrap_error (AVal TOnSetFunc (VFunc f)) ErrTypeUnsupported)) σ
  ∧ (ConvertCompatible (FuncBoolError f) ≫= λ w, Hydrate E w raw) σ
    = Done (Some (wrap_error (AVal TOnSetBoolFunc (VFunc f)) ErrTypeUnsupported)) σ.
Proof.
  repeat split; try done; rewrite bind_run; cbn [ConvertCompatible]; mrun;
    by apply Hydrate_not_pointer.
Qed.

(** X22: [ConvertCompatible] looks through one pointer only.  A pointer to
    a pointer to a sequence is returned as it is, with no [Slice] made; and
    [Hydrate] on what is returned fails with [ErrTypeUnsupported], after it
    has allocated the nil layers. *)
Theorem X22_double_pointer_is_not_wrapped (E : Env) (σ : store) (t te : type)
    (l : loc) (raw : string) :
  handle_ok σ (AVal (TPtr (TPtr t)) (VPtr (Some l))) = true →
  base_type t = TSlice te →
  ConvertCompatible (Other (AVal (TPtr (TPtr t)) (VPtr (Some l)))) σ
    = Done (AVal (TPtr (TPtr t)) (VPtr (Some l))) σ
  ∧ ∃ cs',
      (ConvertCompatible (Other (AVal (TPtr (TPtr t)) (VPtr (Some l))))
         ≫= λ w, Hydrate E w raw) σ
        = Done (Some (wrap_error (AVal (TPtr (TPtr t)) (VPtr (Some l)))
                        ErrTypeUnsupported))
            (with_cells σ cs')
      ∧ is_Some (target cs' (TPtr t) l).
Proof.
  intros Hok Hb.
  assert (Hc : ConvertCompatible (Other (AVal (TPtr (TPtr t)) (VPtr (Some l)))) σ
               = Done (AVal (TPtr (TPtr t)) (VPtr (Some l))) σ).
  { unfold ConvertCompatible. cbn [ValueOf KindOf type_kind].
    rewrite decide_True by done. mrun. cbn [Elem load]. mrun.
    cbn [KindOf type_kind]. by rewrite decide_False. }
  split; [done|]. rewrite bind_run, Hc. unfold Hydrate.
  rewrite (Hydrate_unsupported E _ σ (TPtr t) l raw Hok)
    by (cbn [base_type]; by rewrite Hb).
  unfold handle_ok in Hok. cbn [chain_ok] in Hok.
  destruct (cells σ !! l) as [[t0 v0]|] eqn:Hl; [|done].
  apply andb_prop in Hok as [Ht Hok]. apply bool_decide_eq_true in Ht. subst t0.
  pose proof (resolve_spec (TPtr t) _ l v0 Hl Hok) as Hspec.
  destruct (resolve (TPtr t) (cells σ) l) as [[cs2 lf] chain].
  destruct Hspec as (_ & Htg & _ & _).
  exists cs2. split; [done|]. by exists lf.
Qed.

Lemma X22_double_pointer_is_not_wrapped_witness :
  ConvertCompatible
    (Other (AVal (TPtr (TPtr (TSlice (TBasic BInt)))) (VPtr (Some 0))))
    (mkStore [(TPtr (TSlice (TBasic BInt)), VPtr None)] [])
  = Done (AVal (TPtr (TPtr (TSlice (TBasic BInt)))) (VPtr (Some 0)))
      (mkStore [(TPtr (TSlice (TBasic BInt)), VPtr None)] [])
  ∧ ∃ cs',
      (ConvertCompatible
         (Other (AVal (TPtr (TPtr (TSlice (TBasic BInt)))) (VPtr (Some 0))))
         ≫= λ w, Hydrate (plainEnv Arch64) w "1,2,3")
        (mkStore [(TPtr (TSlice (TBasic BInt)), VPtr None)] [])
      = Done (Some (wrap_error
                      (AVal (TPtr (TPtr (TSlice (TBasic BInt)))) (VPtr (Some 0)))
                      ErrTypeUnsupported))
          (with_cells (mkStore [(TPtr (TSlice (TBasic BInt)), VPtr None)] []) cs')
      ∧ is_Some (target cs' (TPtr (TSlice (TBasic BInt))) 0).
Proof.
  apply (X22_double_pointer_is_not_wrapped (plainEnv Arch64)
           (mkStore [(TPtr (TSlice (TBasic BInt)), VPtr None)] [])
           (TSlice (TBasic BInt)) (TBasic BInt) 0 "1,2,3"); reflexivity.
Defined.

(** ** Integers: what is accepted and what is stored *)

Section IntegerRange.
Local Open Scope Z_scope.




End IntegerRange.



